(** * Expression trees of ikm.py: parsing, simplification, evaluation

    A shallow embedding of [src/ikm.py] (the canonical version; [src/ikm2.py]
    is the same program with the parser written as nested closures and
    [SyntaxError] in place of [ParseError]).

    Modelling conventions.
    - A Python [int] is a [Z] (unbounded); [//] is [Z.div] (floor division).
    - A Python [str] is a [string]; a character is a code point below 256
      and [isdigit] / [isalpha] are Python's classifications of these code
      points.
    - The dictionary of variable values is a [gmap string Z].
    - An exception is a value of [exn]; a call either [Returns] a value or
      [Raises] an exception.
    - Recursion that is not structural ([simplify] on the nodes it has just
      built, the recursive descent of the parser) is driven by a fuel
      argument; [None] means that the fuel ran out, and the fuel the total
      functions pass is shown to be enough.
    - Trees own their children exclusively (no node is reachable along two
      paths), as the parser builds them.  [simplify] stores the simplified
      children back into the node it is called on; on an exclusively owned
      tree the returned tree is the one computed here.
    - Two trees are structurally equal when they are the same term of type
      [Node]: same variant, same contents, recursively.  [node_eq] is the
      [==] of the nodes as [simplify] uses it, between distinct objects.
    - Interpreter limits (recursion depth, the length limit of the
      conversion between [int] and [str]) are outside the model. *)

From Stdlib Require Import ZArith QArith Qround String Ascii List Lia Bool.
From stdpp Require Import base gmap strings.

Local Open Scope string_scope.
Local Open Scope Z_scope.

(** ** Exceptions and results *)

Inductive exn : Type :=
| ParseError          (* class ParseError(Exception) *)
| ValueError          (* undefined variable, unknown operator, int() of a non-decimal digit *)
| ZeroDivisionError.

Inductive result (A : Type) : Type :=
| Returns (a : A)
| Raises (e : exn).
Arguments Returns {A} a.
Arguments Raises {A} e.

(** ** Nodes *)

(** [ValueNode.value] is either an [int] or a [str]. *)
Inductive value : Type :=
| VInt (n : Z)
| VStr (s : string).

Inductive Node : Type :=
| ValueNode (v : value)
| UnaryMinusNode (child : Node)
| BinaryOpNode (op : string) (left right : Node).

(** Number of nodes of a tree. *)
Fixpoint size (t : Node) : nat :=
  match t with
  | ValueNode _ => 1
  | UnaryMinusNode c => S (size c)
  | BinaryOpNode _ l r => S (size l + size r)
  end.

(** ** evaluate *)

Definition ValueNode_evaluate (v : value) (variables : gmap string Z) : result Z :=
  match v with
  | VInt n => Returns n
  | VStr s =>
      match variables !! s with
      | Some n => Returns n
      | None => Raises ValueError
      end
  end.

(** The operator dispatch of [BinaryOpNode.evaluate], once both operands
    have been evaluated. *)
Definition apply_op (op : string) (left_val right_val : Z) : result Z :=
  if String.eqb op "+" then Returns (left_val + right_val)
  else if String.eqb op "-" then Returns (left_val - right_val)
  else if String.eqb op "*" then Returns (left_val * right_val)
  else if String.eqb op "/" then
    if right_val =? 0 then Raises ZeroDivisionError
    else Returns (left_val / right_val)
  else Raises ValueError.

Fixpoint evaluate (t : Node) (variables : gmap string Z) : result Z :=
  match t with
  | ValueNode v => ValueNode_evaluate v variables
  | UnaryMinusNode child =>
      match evaluate child variables with
      | Returns n => Returns (- n)
      | Raises e => Raises e
      end
  | BinaryOpNode op l r =>
      match evaluate l variables with
      | Raises e => Raises e
      | Returns left_val =>
          match evaluate r variables with
          | Raises e => Raises e
          | Returns right_val => apply_op op left_val right_val
          end
      end
  end.

(** ** Equality of nodes ([__eq__]) *)

Definition value_eq (v w : value) : bool :=
  match v, w with
  | VInt a, VInt b => a =? b
  | VStr a, VStr b => String.eqb a b
  | _, _ => false
  end.

(** [ValueNode] and [BinaryOpNode] define [__eq__]; [UnaryMinusNode] does
    not, so Python compares it by object identity, and two operands of an
    exclusively owned tree are never the same object. *)
Fixpoint node_eq (a b : Node) : bool :=
  match a, b with
  | ValueNode v, ValueNode w => value_eq v w
  | BinaryOpNode op1 l1 r1, BinaryOpNode op2 l2 r2 =>
      String.eqb op1 op2 && node_eq l1 l2 && node_eq r1 r2
  | _, _ => false
  end.

(** ** simplify *)

Definition UnaryMinusNode_fold (child : Node) : Node :=
  match child with
  | ValueNode (VInt n) => ValueNode (VInt (- n))
  | _ => UnaryMinusNode child
  end.

(** The last two statements of [BinaryOpNode.simplify]: constant folding
    through [self.evaluate({})], otherwise [self]. *)
Definition fold_constants (op : string) (left right : Node) : result Node :=
  match left, right with
  | ValueNode (VInt _), ValueNode (VInt _) =>
      match evaluate (BinaryOpNode op left right) ∅ with
      | Returns n => Returns (ValueNode (VInt n))
      | Raises e => Raises e
      end
  | _, _ => Returns (BinaryOpNode op left right)
  end.

Definition is_plus_or_minus (op : string) : bool :=
  String.eqb op "+" || String.eqb op "-".

Fixpoint simplify_fuel (fuel : nat) (t : Node) : option (result Node) :=
  match fuel with
  | O => None
  | S fuel =>
      match t with
      | ValueNode _ => Some (Returns t)
      | UnaryMinusNode child =>
          match simplify_fuel fuel child with
          | Some (Returns child') => Some (Returns (UnaryMinusNode_fold child'))
          | other => other
          end
      | BinaryOpNode op l r =>
          match simplify_fuel fuel l with
          | Some (Returns left') =>
              match simplify_fuel fuel r with
              | Some (Returns right') =>
                  match left', right' with
                  | BinaryOpNode lop l1 l2, BinaryOpNode rop r1 r2 =>
                      if is_plus_or_minus op && String.eqb lop "*" && String.eqb rop "*" then
                        if node_eq l2 r2 then
                          match simplify_fuel fuel (BinaryOpNode op l1 r1) with
                          | Some (Returns inner) =>
                              simplify_fuel fuel (BinaryOpNode "*" inner l2)
                          | other => other
                          end
                        else if node_eq l1 r1 then
                          match simplify_fuel fuel (BinaryOpNode op l2 r2) with
                          | Some (Returns inner) =>
                              simplify_fuel fuel (BinaryOpNode "*" l1 inner)
                          | other => other
                          end
                        else Some (fold_constants op left' right')
                      else Some (fold_constants op left' right')
                  | _, _ => Some (fold_constants op left' right')
                  end
              | other => other
              end
          | other => other
          end
      end
  end.

(** [size t] levels of recursion are enough (lemma [simplify_fuel_enough]);
    the default is never reached. *)
Definition simplify (t : Node) : result Node :=
  match simplify_fuel (size t) t with
  | Some r => r
  | None => Returns t
  end.

(** ** Characters, [int] and [str] *)

Definition code (ch : ascii) : Z := Z.of_N (N_of_ascii ch).

(** The decimal digits [0] .. [9]. *)
Definition is_decimal (ch : ascii) : bool :=
  (48 <=? code ch) && (code ch <=? 57).

(** [str.isdigit]: the decimal digits and the superscripts two, three, one. *)
Definition isdigit (ch : ascii) : bool :=
  is_decimal ch || (code ch =? 178) || (code ch =? 179) || (code ch =? 185).

(** [str.isalpha] on the code points below 256. *)
Definition isalpha (ch : ascii) : bool :=
  let n := code ch in
  ((65 <=? n) && (n <=? 90)) || ((97 <=? n) && (n <=? 122))
  || (n =? 170) || (n =? 181) || (n =? 186)
  || ((192 <=? n) && (n <=? 214)) || ((216 <=? n) && (n <=? 246))
  || ((248 <=? n) && (n <=? 255)).

Definition digit_value (ch : ascii) : Z := code ch - 48.

Fixpoint int_acc (s : string) (acc : Z) : result Z :=
  match s with
  | EmptyString => Returns acc
  | String ch s' =>
      if is_decimal ch then int_acc s' (10 * acc + digit_value ch)
      else Raises ValueError
  end.

(** [int(s)] for a string of [isdigit] characters: the superscripts are no
    decimal digits and make the conversion fail. *)
Definition int (s : string) : result Z :=
  match s with
  | EmptyString => Raises ValueError
  | _ => int_acc s 0
  end.

Definition digit_char (d : Z) : ascii := ascii_of_N (Z.to_N (48 + d)).

(** The decimal digits of [n >= 0], most significant first, put before [acc]. *)
Fixpoint str_digits (fuel : nat) (n : Z) (acc : string) : string :=
  match fuel with
  | O => acc
  | S fuel =>
      let acc' := String (digit_char (n mod 10)) acc in
      if n / 10 =? 0 then acc' else str_digits fuel (n / 10) acc'
  end.

Definition str_nonneg (n : Z) : string :=
  str_digits (S (Z.to_nat (Z.log2 n))) n "".

(** [str(n)] for an [int]. *)
Definition str_int (n : Z) : string :=
  if n <? 0 then String "-" (str_nonneg (- n)) else str_nonneg n.

(** ** to_infix *)

Definition ValueNode_to_infix (v : value) : string :=
  match v with
  | VInt n => str_int n
  | VStr s => s
  end.

Fixpoint to_infix (t : Node) : string :=
  match t with
  | ValueNode v => ValueNode_to_infix v
  | UnaryMinusNode child => "-(" ++ to_infix child ++ ")"
  | BinaryOpNode op l r =>
      "(" ++ to_infix l ++ " " ++ op ++ " " ++ to_infix r ++ ")"
  end.

(** ** Parser *)

(** [expr.replace(' ', '')] *)
Fixpoint remove_spaces (expr : string) : string :=
  match expr with
  | EmptyString => EmptyString
  | String ch expr' =>
      if Ascii.eqb ch " " then remove_spaces expr'
      else String ch (remove_spaces expr')
  end.

(** The parser state is the input that is still unread, [expr[pos:]]:
    [_current()] is its first character (none at the end of the input),
    [_consume()] drops it, and [pos == len(expr)] says that it is empty. *)

(** [ch in OPERATORS_PRIORITY] *)
Definition is_operator (ch : ascii) : bool :=
  Ascii.eqb ch "+" || Ascii.eqb ch "-" || Ascii.eqb ch "*" || Ascii.eqb ch "/".

(** [OPERATORS_PRIORITY.get(op, 0)] *)
Definition _priority (op : ascii) : Z :=
  if Ascii.eqb op "+" then 1
  else if Ascii.eqb op "-" then 1
  else if Ascii.eqb op "*" then 2
  else if Ascii.eqb op "/" then 2
  else 0.

(** The loop of [_parse_number]: the longest prefix of [isdigit]
    characters and what follows it. *)
Fixpoint scan_digits (st : string) : string * string :=
  match st with
  | EmptyString => (EmptyString, EmptyString)
  | String ch st' =>
      if isdigit ch then
        let (digits, rest) := scan_digits st' in (String ch digits, rest)
      else (EmptyString, st)
  end.

Definition _parse_number (st : string) : result (Node * string) :=
  let (digits, rest) := scan_digits st in
  match int digits with
  | Returns n => Returns (ValueNode (VInt n), rest)
  | Raises e => Raises e
  end.

Fixpoint _parse_expression (fuel : nat) (min_priority : Z) (st : string)
  : option (result (Node * string)) :=
  match fuel with
  | O => None
  | S fuel =>
      match _parse_unary fuel st with
      | Some (Returns (node, st1)) =>
          _parse_expression_loop fuel min_priority node st1
      | other => other
      end
  end
(** The [while] loop of [_parse_expression], with [node] built so far. *)
with _parse_expression_loop (fuel : nat) (min_priority : Z) (node : Node)
       (st : string) : option (result (Node * string)) :=
  match fuel with
  | O => None
  | S fuel =>
      match st with
      | EmptyString => Some (Returns (node, st))
      | String op st1 =>
          if is_operator op && (min_priority <=? _priority op) then
            match _parse_expression fuel (_priority op + 1) st1 with
            | Some (Returns (right_, st2)) =>
                _parse_expression_loop fuel min_priority
                  (BinaryOpNode (String op EmptyString) node right_) st2
            | other => other
            end
          else Some (Returns (node, st))
      end
  end
with _parse_unary (fuel : nat) (st : string) : option (result (Node * string)) :=
  match fuel with
  | O => None
  | S fuel =>
      match st with
      | EmptyString => _parse_primary fuel st
      | String ch st1 =>
          if Ascii.eqb ch "-" then
            match _parse_unary fuel st1 with
            | Some (Returns (child, st2)) => Some (Returns (UnaryMinusNode child, st2))
            | other => other
            end
          else _parse_primary fuel st
      end
  end
with _parse_primary (fuel : nat) (st : string) : option (result (Node * string)) :=
  match fuel with
  | O => None
  | S fuel =>
      match st with
      | EmptyString => Some (Raises ParseError)
      | String ch st1 =>
          if Ascii.eqb ch "(" then
            match _parse_expression fuel 0 st1 with
            | Some (Returns (node, st2)) =>
                match st2 with
                | EmptyString => Some (Raises ParseError)
                | String ch2 st3 =>
                    if Ascii.eqb ch2 ")" then Some (Returns (node, st3))
                    else Some (Raises ParseError)
                end
            | other => other
            end
          else if isdigit ch then Some (_parse_number st)
          else if isalpha ch then
            Some (Returns (ValueNode (VStr (String ch EmptyString)), st1))
          else Some (Raises ParseError)
      end
  end.

(** [Parser(expr).parse()] with [fuel] levels of recursion. *)
Definition parse_fuel (fuel : nat) (expr : string) : option (result Node) :=
  match _parse_expression fuel 0 (remove_spaces expr) with
  | Some (Returns (tree, rest)) =>
      match rest with
      | EmptyString => Some (Returns tree)
      | _ => Some (Raises ParseError)
      end
  | Some (Raises e) => Some (Raises e)
  | None => None
  end.

(** Three levels of recursion for each character are enough (lemma
    [parse_fuel_enough]); the default is never reached. *)
Definition parse_depth (expr : string) : nat :=
  3 * String.length (remove_spaces expr) + 3.

Definition parse (expr : string) : result Node :=
  match parse_fuel (parse_depth expr) expr with
  | Some r => r
  | None => Raises ParseError
  end.

Definition vars_a5_b0 : gmap string Z := <["a" := 5]> (<["b" := 0]> ∅).

(** ** Views used by the proofs *)

(** Which [return] of the factoring block of [BinaryOpNode.simplify] is
    taken, for the simplified operands [left'] and [right']. *)
Inductive factoring : Type :=
| FactorRight (l1 r1 l2 : Node)     (* l2 == r2 *)
| FactorLeft (l1 l2 r2 : Node)      (* l1 == r1, and not l2 == r2 *)
| NoFactoring.

Definition factoring_of (op : string) (left' right' : Node) : factoring :=
  match left', right' with
  | BinaryOpNode lop l1 l2, BinaryOpNode rop r1 r2 =>
      if is_plus_or_minus op && String.eqb lop "*" && String.eqb rop "*" then
        if node_eq l2 r2 then FactorRight l1 r1 l2
        else if node_eq l1 r1 then FactorLeft l1 l2 r2
        else NoFactoring
      else NoFactoring
  | _, _ => NoFactoring
  end.

(** Sequencing of two calls that may raise or run out of fuel. *)
Definition and_then {A B : Type} (c : option (result A))
  (k : A -> option (result B)) : option (result B) :=
  match c with
  | Some (Returns a) => k a
  | Some (Raises e) => Some (Raises e)
  | None => None
  end.

(** Every operator of the tree satisfies [ok]. *)
Fixpoint operators_in (ok : string -> bool) (t : Node) : bool :=
  match t with
  | ValueNode _ => true
  | UnaryMinusNode child => operators_in ok child
  | BinaryOpNode op l r => ok op && operators_in ok l && operators_in ok r
  end.

Definition is_binary_operator (op : string) : bool :=
  String.eqb op "+" || String.eqb op "-" || String.eqb op "*" || String.eqb op "/".

Definition is_ring_operator (op : string) : bool :=
  String.eqb op "+" || String.eqb op "-" || String.eqb op "*".

(** Every integer literal of the tree is at least 0. *)
Fixpoint literals_nonneg (t : Node) : bool :=
  match t with
  | ValueNode (VInt n) => 0 <=? n
  | ValueNode (VStr _) => true
  | UnaryMinusNode child => literals_nonneg child
  | BinaryOpNode _ l r => literals_nonneg l && literals_nonneg r
  end.

(** The trees of the data model that the grammar can denote: operators
    among [+ - * /], variable names of one alphabetic character, literals
    that are not negative. *)
Fixpoint well_formed (t : Node) : bool :=
  match t with
  | ValueNode (VInt n) => 0 <=? n
  | ValueNode (VStr (String ch EmptyString)) => isalpha ch
  | ValueNode (VStr _) => false
  | UnaryMinusNode child => well_formed child
  | BinaryOpNode op l r => is_binary_operator op && well_formed l && well_formed r
  end.

(** [n] pairs of parentheses around [s]. *)
Fixpoint nested (n : nat) (s : string) : string :=
  match n with
  | O => s
  | S n => "(" ++ nested n s ++ ")"
  end.

(** Use of the value a call returned; the exception it raised propagates. *)
Definition result_bind {A B : Type} (c : result A) (k : A -> result B) : result B :=
  match c with
  | Returns a => k a
  | Raises e => Raises e
  end.

(** [Parser(expr).parse().simplify()] *)
Definition parse_simplify (expr : string) : result Node :=
  result_bind (parse expr) simplify.

(** [Parser(expr).parse().evaluate(variables)] *)
Definition parse_evaluate (expr : string) (variables : gmap string Z) : result Z :=
  result_bind (parse expr) (fun tree => evaluate tree variables).

Definition var (name : string) : Node := ValueNode (VStr name).
Definition lit (n : Z) : Node := ValueNode (VInt n).

(** What [_parse_primary] does once the expression in parentheses is read. *)
Definition expect_closing (node : Node) (st2 : string) : option (result (Node * string)) :=
  match st2 with
  | EmptyString => Some (Raises ParseError)
  | String ch2 st3 =>
      if Ascii.eqb ch2 ")" then Some (Returns (node, st3))
      else Some (Raises ParseError)
  end.

(** More fuel does not change what the parser does. *)
Definition parser_mono_at (fuel : nat) : Prop :=
  (forall p st r, _parse_expression fuel p st = Some r ->
     forall fuel', (fuel <= fuel')%nat -> _parse_expression fuel' p st = Some r) /\
  (forall p node st r, _parse_expression_loop fuel p node st = Some r ->
     forall fuel', (fuel <= fuel')%nat -> _parse_expression_loop fuel' p node st = Some r) /\
  (forall st r, _parse_unary fuel st = Some r ->
     forall fuel', (fuel <= fuel')%nat -> _parse_unary fuel' st = Some r) /\
  (forall st r, _parse_primary fuel st = Some r ->
     forall fuel', (fuel <= fuel')%nat -> _parse_primary fuel' st = Some r).


(** A call that returns has read at least one character (the loop: none
    or more). *)
Definition parser_consumes_at (fuel : nat) : Prop :=
  (forall p st t st', _parse_expression fuel p st = Some (Returns (t, st')) ->
     (String.length st' < String.length st)%nat) /\
  (forall p node st t st', _parse_expression_loop fuel p node st = Some (Returns (t, st')) ->
     (String.length st' <= String.length st)%nat) /\
  (forall st t st', _parse_unary fuel st = Some (Returns (t, st')) ->
     (String.length st' < String.length st)%nat) /\
  (forall st t st', _parse_primary fuel st = Some (Returns (t, st')) ->
     (String.length st' < String.length st)%nat).

(** The recursion depth that the unread input bounds. *)
Definition parser_total_at (fuel : nat) : Prop :=
  (forall p st, (3 * String.length st + 3 <= fuel)%nat ->
     exists r, _parse_expression fuel p st = Some r) /\
  (forall p node st, (3 * String.length st + 1 <= fuel)%nat ->
     exists r, _parse_expression_loop fuel p node st = Some r) /\
  (forall st, (3 * String.length st + 2 <= fuel)%nat ->
     exists r, _parse_unary fuel st = Some r) /\
  (forall st, (3 * String.length st + 1 <= fuel)%nat ->
     exists r, _parse_primary fuel st = Some r).

(** The trees the parser returns hold no negative literal. *)
Definition parser_nonneg_at (fuel : nat) : Prop :=
  (forall p st t st', _parse_expression fuel p st = Some (Returns (t, st')) ->
     literals_nonneg t = true) /\
  (forall p node st t st', literals_nonneg node = true ->
     _parse_expression_loop fuel p node st = Some (Returns (t, st')) ->
     literals_nonneg t = true) /\
  (forall st t st', _parse_unary fuel st = Some (Returns (t, st')) ->
     literals_nonneg t = true) /\
  (forall st t st', _parse_primary fuel st = Some (Returns (t, st')) ->
     literals_nonneg t = true).

(** A call that returns does the same when a closing parenthesis follows
    its input. *)
Definition parser_extends_at (fuel : nat) : Prop :=
  forall suffix,
  (forall p st t st', _parse_expression fuel p st = Some (Returns (t, st')) ->
     _parse_expression fuel p (st ++ String ")" suffix)
     = Some (Returns (t, st' ++ String ")" suffix))) /\
  (forall p node st t st', _parse_expression_loop fuel p node st = Some (Returns (t, st')) ->
     _parse_expression_loop fuel p node (st ++ String ")" suffix)
     = Some (Returns (t, st' ++ String ")" suffix))) /\
  (forall st t st', _parse_unary fuel st = Some (Returns (t, st')) ->
     _parse_unary fuel (st ++ String ")" suffix)
     = Some (Returns (t, st' ++ String ")" suffix))) /\
  (forall st t st', _parse_primary fuel st = Some (Returns (t, st')) ->
     _parse_primary fuel (st ++ String ")" suffix)
     = Some (Returns (t, st' ++ String ")" suffix))).

(** Strings of decimal digits. *)
Fixpoint all_decimal (s : string) : bool :=
  match s with
  | EmptyString => true
  | String ch s' => is_decimal ch && all_decimal s'
  end.

(** The unread input does not go on with a digit. *)
Definition no_digit_ahead (st : string) : bool :=
  match st with
  | EmptyString => true
  | String ch _ => negb (isdigit ch)
  end.

(** Some recursion depth is enough for [run] to give [r]. *)
Definition eventually {A : Type} (run : nat -> option A) (r : A) : Prop :=
  exists fuel, run fuel = Some r.

(** No unary minus node in the tree. *)
Fixpoint unary_free (t : Node) : bool :=
  match t with
  | ValueNode _ => true
  | UnaryMinusNode _ => false
  | BinaryOpNode _ l r => unary_free l && unary_free r
  end.

(** ** Variables of a tree, simplified trees, the main program *)

(** The variable names of a tree, in the order [evaluate] looks them up. *)
Fixpoint names (t : Node) : list string :=
  match t with
  | ValueNode (VInt _) => []
  | ValueNode (VStr s) => [s]
  | UnaryMinusNode child => names child
  | BinaryOpNode _ l r => (names l ++ names r)%list
  end.

(** [name in variables] *)
Definition bound (variables : gmap string Z) (name : string) : bool :=
  match variables !! name with
  | Some _ => true
  | None => false
  end.

(** Two dictionaries give the variables of [t] the same values. *)
Definition agree_on (t : Node) (v1 v2 : gmap string Z) : bool :=
  forallb (fun name => bool_decide (v1 !! name = v2 !! name)) (names t).

(** [isinstance(t, ValueNode) and isinstance(t.value, int)] *)
Definition is_literal (t : Node) : bool :=
  match t with
  | ValueNode (VInt _) => true
  | _ => false
  end.

(** Trees that [simplify] has nothing to do on: no unary minus of a
    literal, no operator between two literals, no [+] or [-] of two
    products with a common factor that [==] recognises. *)
Fixpoint simplified (t : Node) : bool :=
  match t with
  | ValueNode _ => true
  | UnaryMinusNode child => negb (is_literal child) && simplified child
  | BinaryOpNode op l r =>
      negb (is_literal l && is_literal r)
      && match factoring_of op l r with NoFactoring => true | _ => false end
      && simplified l && simplified r
  end.

(** The character occurs in the string. *)
Fixpoint char_in (ch : ascii) (s : string) : Prop :=
  match s with
  | EmptyString => False
  | String c s' => c = ch \/ char_in ch s'
  end.

(** The dictionary the main program fills,
    [for ch in set(filter(str.isalpha, expr)): variables[ch] = int(input(...))],
    where [answer ch] is the integer read for the letter [ch] (each letter
    is asked for once). *)
Fixpoint read_variables (answer : string -> Z) (expr : string) : gmap string Z :=
  match expr with
  | EmptyString => ∅
  | String ch expr' =>
      if isalpha ch then
        <[String ch EmptyString := answer (String ch EmptyString)]>
          (read_variables answer expr')
      else read_variables answer expr'
  end.

(** The result the main program prints when the user asks for the value:
    [Parser(expr).parse()], [tree.simplify()], [simplified.evaluate(variables)]. *)
Definition main_result (answer : string -> Z) (expr : string) : result Z :=
  result_bind (parse expr) (fun tree =>
  result_bind (simplify tree) (fun simplified_tree =>
  evaluate simplified_tree (read_variables answer expr))).

(** The trees the parser returns are trees of the grammar. *)
Definition parser_well_formed_at (fuel : nat) : Prop :=
  (forall p st t st', _parse_expression fuel p st = Some (Returns (t, st')) ->
     well_formed t = true) /\
  (forall p node st t st', well_formed node = true ->
     _parse_expression_loop fuel p node st = Some (Returns (t, st')) ->
     well_formed t = true) /\
  (forall st t st', _parse_unary fuel st = Some (Returns (t, st')) ->
     well_formed t = true) /\
  (forall st t st', _parse_primary fuel st = Some (Returns (t, st')) ->
     well_formed t = true).

(** A call that returns does the same when a character [ch] that is neither
    a digit nor an operator follows its input. *)
Definition parser_follows_at (ch : ascii) (fuel : nat) : Prop :=
  forall suffix,
  (forall p st t st', _parse_expression fuel p st = Some (Returns (t, st')) ->
     _parse_expression fuel p (st ++ String ch suffix)
     = Some (Returns (t, st' ++ String ch suffix))) /\
  (forall p node st t st', _parse_expression_loop fuel p node st = Some (Returns (t, st')) ->
     _parse_expression_loop fuel p node (st ++ String ch suffix)
     = Some (Returns (t, st' ++ String ch suffix))) /\
  (forall st t st', _parse_unary fuel st = Some (Returns (t, st')) ->
     _parse_unary fuel (st ++ String ch suffix)
     = Some (Returns (t, st' ++ String ch suffix))) /\
  (forall st t st', _parse_primary fuel st = Some (Returns (t, st')) ->
     _parse_primary fuel (st ++ String ch suffix)
     = Some (Returns (t, st' ++ String ch suffix))).

(** The call returns [(t, st)], raises ParseError, or runs out of fuel. *)
Definition returns_or_ParseError (r : option (result (Node * string)))
  (t : Node) (st : string) : Prop :=
  r = None \/ r = Some (Returns (t, st)) \/ r = Some (Raises ParseError).

(** What a call that returns does when an operator [op] ends its input. *)
Definition parser_operator_at (op : ascii) (fuel : nat) : Prop :=
  (forall p st t st', _parse_expression fuel p st = Some (Returns (t, st')) ->
     returns_or_ParseError
       (_parse_expression fuel p (st ++ String op EmptyString))
       t (st' ++ String op EmptyString)) /\
  (forall p node st t st', _parse_expression_loop fuel p node st = Some (Returns (t, st')) ->
     returns_or_ParseError
       (_parse_expression_loop fuel p node (st ++ String op EmptyString))
       t (st' ++ String op EmptyString)) /\
  (forall st t st', _parse_unary fuel st = Some (Returns (t, st')) ->
     returns_or_ParseError
       (_parse_unary fuel (st ++ String op EmptyString))
       t (st' ++ String op EmptyString)) /\
  (forall st t st', _parse_primary fuel st = Some (Returns (t, st')) ->
     returns_or_ParseError
       (_parse_primary fuel (st ++ String op EmptyString))
       t (st' ++ String op EmptyString)).

(** The variables of [t] are letters of [st]. *)
Definition letters_of (st : string) (t : Node) : Prop :=
  forall name, name ∈ names t ->
  exists ch, name = String ch EmptyString /\ isalpha ch = true /\ char_in ch st.

(** The variables of a parsed tree are letters of the input, and what is
    left unread is part of the input. *)
Definition parser_letters_at (fuel : nat) : Prop :=
  (forall p st t st', _parse_expression fuel p st = Some (Returns (t, st')) ->
     letters_of st t /\ forall ch, char_in ch st' -> char_in ch st) /\
  (forall p node st t st', _parse_expression_loop fuel p node st = Some (Returns (t, st')) ->
     (forall name, name ∈ names t ->
        name ∈ names node \/
        exists ch, name = String ch EmptyString /\ isalpha ch = true /\ char_in ch st) /\
     forall ch, char_in ch st' -> char_in ch st) /\
  (forall st t st', _parse_unary fuel st = Some (Returns (t, st')) ->
     letters_of st t /\ forall ch, char_in ch st' -> char_in ch st) /\
  (forall st t st', _parse_primary fuel st = Some (Returns (t, st')) ->
     letters_of st t /\ forall ch, char_in ch st' -> char_in ch st).
(** * Properties of [simplify] *)

Lemma simplify_fuel_BinaryOpNode fuel op l r :
  simplify_fuel (S fuel) (BinaryOpNode op l r) =
  and_then (simplify_fuel fuel l) (fun left' =>
  and_then (simplify_fuel fuel r) (fun right' =>
  match factoring_of op left' right' with
  | FactorRight l1 r1 l2 =>
      and_then (simplify_fuel fuel (BinaryOpNode op l1 r1)) (fun inner =>
      simplify_fuel fuel (BinaryOpNode "*" inner l2))
  | FactorLeft l1 l2 r2 =>
      and_then (simplify_fuel fuel (BinaryOpNode op l2 r2)) (fun inner =>
      simplify_fuel fuel (BinaryOpNode "*" l1 inner))
  | NoFactoring => Some (fold_constants op left' right')
  end)).
Proof.
  cbn [simplify_fuel and_then].
  destruct (simplify_fuel fuel l) as [[left'|e]|]; [|reflexivity..].
  destruct (simplify_fuel fuel r) as [[right'|e]|]; [|reflexivity..].
  destruct left' as [v|c|lop l1 l2], right' as [w|d|rop r1 r2];
    cbn [and_then factoring_of]; try reflexivity.
  destruct (is_plus_or_minus op && String.eqb lop "*" && String.eqb rop "*");
    [|reflexivity].
  destruct (node_eq l2 r2).
  - destruct (simplify_fuel fuel (BinaryOpNode op l1 r1)) as [[?|?]|]; reflexivity.
  - destruct (node_eq l1 r1); [|reflexivity].
    destruct (simplify_fuel fuel (BinaryOpNode op l2 r2)) as [[?|?]|]; reflexivity.
Qed.

Lemma simplify_fuel_UnaryMinusNode fuel child :
  simplify_fuel (S fuel) (UnaryMinusNode child) =
  and_then (simplify_fuel fuel child) (fun child' =>
  Some (Returns (UnaryMinusNode_fold child'))).
Proof.
  cbn [simplify_fuel and_then].
  destruct (simplify_fuel fuel child) as [[?|?]|]; reflexivity.
Qed.

Lemma and_then_Some {A B} (c : option (result A)) (k : A -> option (result B)) r :
  and_then c k = Some r ->
  (exists a, c = Some (Returns a) /\ k a = Some r) \/
  (exists e, c = Some (Raises e) /\ r = Raises e).
Proof.
  destruct c as [[a|e]|]; cbn; intros H.
  - left; eauto.
  - right; exists e; split; congruence.
  - discriminate.
Qed.

Lemma value_eq_true v w : value_eq v w = true -> v = w.
Proof.
  destruct v as [a|a], w as [b|b]; cbn; try discriminate.
  - intros H. apply Z.eqb_eq in H. congruence.
  - intros H. apply String.eqb_eq in H. congruence.
Qed.

(** Nodes that [==] accepts are the same tree. *)
Lemma node_eq_true a : forall b, node_eq a b = true -> a = b.
Proof.
  induction a as [v|c IH|op l IHl r IHr]; intros [w|d|op' l' r']; cbn;
    try discriminate.
  - intros H. apply value_eq_true in H. congruence.
  - intros H.
    apply andb_true_iff in H as [H Hr]. apply andb_true_iff in H as [Hop Hl].
    apply String.eqb_eq in Hop. apply IHl in Hl. apply IHr in Hr. congruence.
Qed.

Lemma factoring_of_FactorRight op L R l1 r1 l2 :
  factoring_of op L R = FactorRight l1 r1 l2 ->
  exists r2, L = BinaryOpNode "*" l1 l2 /\ R = BinaryOpNode "*" r1 r2 /\
             l2 = r2 /\ is_plus_or_minus op = true.
Proof.
  destruct L as [v|c|lop a1 a2], R as [w|d|rop b1 b2]; cbn; try discriminate.
  destruct (is_plus_or_minus op) eqn:Hop; cbn; [|discriminate].
  destruct (String.eqb_spec lop "*"); cbn; [|discriminate].
  destruct (String.eqb_spec rop "*"); cbn; [|discriminate].
  destruct (node_eq a2 b2) eqn:E2.
  - intros [= <- <- <-]. apply node_eq_true in E2. exists b2. subst. auto.
  - destruct (node_eq a1 b1); discriminate.
Qed.

Lemma factoring_of_FactorLeft op L R l1 l2 r2 :
  factoring_of op L R = FactorLeft l1 l2 r2 ->
  L = BinaryOpNode "*" l1 l2 /\ R = BinaryOpNode "*" l1 r2 /\
  node_eq l2 r2 = false /\ is_plus_or_minus op = true.
Proof.
  destruct L as [v|c|lop a1 a2], R as [w|d|rop b1 b2]; cbn; try discriminate.
  destruct (is_plus_or_minus op) eqn:Hop; cbn; [|discriminate].
  destruct (String.eqb_spec lop "*"); cbn; [|discriminate].
  destruct (String.eqb_spec rop "*"); cbn; [|discriminate].
  destruct (node_eq a2 b2) eqn:E2; [discriminate|].
  destruct (node_eq a1 b1) eqn:E1; [|discriminate].
  intros [= <- <- <-]. apply node_eq_true in E1. subst. auto.
Qed.

(** More fuel does not change a result. *)
Lemma simplify_fuel_mono fuel : forall t r,
  simplify_fuel fuel t = Some r ->
  forall fuel', (fuel <= fuel')%nat -> simplify_fuel fuel' t = Some r.
Proof.
  induction fuel as [|fuel IH]; intros t r H fuel' Hle; [discriminate|].
  destruct fuel' as [|fuel']; [lia|].
  assert (Hle' : (fuel <= fuel')%nat) by lia.
  destruct t as [v|c|op l r0].
  - exact H.
  - rewrite simplify_fuel_UnaryMinusNode in *.
    apply and_then_Some in H as [(c' & Hc & H)|(e & Hc & ->)];
      rewrite (IH _ _ Hc _ Hle'); cbn; auto.
  - rewrite simplify_fuel_BinaryOpNode in *.
    apply and_then_Some in H as [(left' & Hl & H)|(e & Hl & ->)];
      rewrite (IH _ _ Hl _ Hle'); cbn [and_then]; [|reflexivity].
    apply and_then_Some in H as [(right' & Hr & H)|(e & Hr & ->)];
      rewrite (IH _ _ Hr _ Hle'); cbn [and_then]; [|reflexivity].
    destruct (factoring_of op left' right') as [l1 r1 l2|l1 l2 r2|]; [| |exact H].
    + apply and_then_Some in H as [(inner & Hi & H)|(e & Hi & ->)];
        rewrite (IH _ _ Hi _ Hle'); cbn [and_then]; [|reflexivity].
      exact (IH _ _ H _ Hle').
    + apply and_then_Some in H as [(inner & Hi & H)|(e & Hi & ->)];
        rewrite (IH _ _ Hi _ Hle'); cbn [and_then]; [|reflexivity].
      exact (IH _ _ H _ Hle').
Qed.

Lemma UnaryMinusNode_fold_size c : (size (UnaryMinusNode_fold c) <= S (size c))%nat.
Proof. destruct c as [[n|s]|d|op l r]; cbn; lia. Qed.

Lemma fold_constants_size op l r t :
  fold_constants op l r = Returns t -> (size t <= S (size l + size r))%nat.
Proof.
  unfold fold_constants.
  destruct l as [[a|a]|c|lop l1 l2]; try (intros [= <-]; cbn; lia).
  destruct r as [[b|b]|d|rop r1 r2]; try (intros [= <-]; cbn; lia).
  destruct (evaluate _ _); intros [= <-]; cbn; lia.
Qed.

(** [simplify] terminates: a recursion depth of [size t] is enough, and the
    result is no larger than [t]. *)
Lemma simplify_fuel_enough fuel : forall t,
  (size t <= fuel)%nat ->
  exists r, simplify_fuel fuel t = Some r /\
            forall t', r = Returns t' -> (size t' <= size t)%nat.
Proof.
  induction fuel as [|fuel IH]; intros t Hsize.
  { destruct t; cbn in Hsize; lia. }
  destruct t as [v|c|op l r].
  - exists (Returns (ValueNode v)). split; [reflexivity|]. intros t' [= <-]. lia.
  - rewrite simplify_fuel_UnaryMinusNode. cbn in Hsize.
    destruct (IH c) as ([c'|e] & -> & Hc); [lia| |]; cbn [and_then].
    + eexists; split; [reflexivity|]. intros t' [= <-].
      specialize (Hc c' eq_refl). pose proof (UnaryMinusNode_fold_size c').
      cbn. lia.
    + eexists; split; [reflexivity|]. discriminate.
  - rewrite simplify_fuel_BinaryOpNode. cbn in Hsize.
    destruct (IH l) as ([left'|e] & -> & Hl); [lia| |]; cbn [and_then];
      [|eexists; split; [reflexivity|discriminate]].
    destruct (IH r) as ([right'|e] & -> & Hr); [lia| |]; cbn [and_then];
      [|eexists; split; [reflexivity|discriminate]].
    specialize (Hl _ eq_refl). specialize (Hr _ eq_refl).
    destruct (factoring_of op left' right') as [l1 r1 l2|l1 l2 r2|] eqn:F.
    + apply factoring_of_FactorRight in F as (r2 & -> & -> & <- & _).
      cbn in Hl, Hr.
      destruct (IH (BinaryOpNode op l1 r1)) as ([inner|e] & -> & Hi);
        [cbn; lia| |]; cbn [and_then];
        [|eexists; split; [reflexivity|discriminate]].
      specialize (Hi _ eq_refl). cbn in Hi.
      destruct (IH (BinaryOpNode "*" inner l2)) as (res & -> & Hres); [cbn; lia|].
      exists res. split; [reflexivity|]. intros t' ->.
      specialize (Hres _ eq_refl). cbn in Hres |- *. lia.
    + apply factoring_of_FactorLeft in F as (-> & -> & _ & _).
      cbn in Hl, Hr.
      destruct (IH (BinaryOpNode op l2 r2)) as ([inner|e] & -> & Hi);
        [cbn; lia| |]; cbn [and_then];
        [|eexists; split; [reflexivity|discriminate]].
      specialize (Hi _ eq_refl). cbn in Hi.
      destruct (IH (BinaryOpNode "*" l1 inner)) as (res & -> & Hres); [cbn; lia|].
      exists res. split; [reflexivity|]. intros t' ->.
      specialize (Hres _ eq_refl). cbn in Hres |- *. lia.
    + eexists; split; [reflexivity|]. intros t' H.
      apply fold_constants_size in H. cbn. lia.
Qed.

(** [simplify t] is the result of [simplify_fuel] with any fuel that does
    not run out. *)
Lemma simplify_iff t r :
  simplify t = r <-> exists fuel, simplify_fuel fuel t = Some r.
Proof.
  unfold simplify.
  destruct (simplify_fuel_enough (size t) t) as (r0 & H0 & _); [lia|].
  rewrite H0. split.
  - intros <-. eauto.
  - intros (fuel & H).
    pose proof (simplify_fuel_mono _ _ _ H (Nat.max fuel (size t))) as H1.
    pose proof (simplify_fuel_mono _ _ _ H0 (Nat.max fuel (size t))) as H2.
    rewrite H1 in H2 by lia. specialize (H2 ltac:(lia)). congruence.
Qed.

Lemma simplify_fuel_simplify fuel t r :
  simplify_fuel fuel t = Some r -> simplify t = r.
Proof. intros H. apply simplify_iff. eauto. Qed.

(** ** simplify and evaluate *)

Lemma evaluate_BinaryOpNode_inv op l r vars n :
  evaluate (BinaryOpNode op l r) vars = Returns n ->
  exists a b, evaluate l vars = Returns a /\ evaluate r vars = Returns b /\
              apply_op op a b = Returns n.
Proof.
  cbn. destruct (evaluate l vars) as [a|e]; [|discriminate].
  destruct (evaluate r vars) as [b|e]; [|discriminate]. eauto.
Qed.

Lemma evaluate_BinaryOpNode op l r vars a b :
  evaluate l vars = Returns a -> evaluate r vars = Returns b ->
  evaluate (BinaryOpNode op l r) vars = apply_op op a b.
Proof. cbn. intros -> ->. reflexivity. Qed.

Lemma apply_op_plus_or_minus op a b :
  is_plus_or_minus op = true ->
  (op = "+" /\ apply_op op a b = Returns (a + b)) \/
  (op = "-" /\ apply_op op a b = Returns (a - b)).
Proof.
  unfold is_plus_or_minus, apply_op.
  destruct (String.eqb_spec op "+") as [->|_]; [auto|].
  destruct (String.eqb_spec op "-") as [->|_]; [auto|discriminate].
Qed.

Lemma UnaryMinusNode_fold_evaluate c vars :
  evaluate (UnaryMinusNode_fold c) vars = evaluate (UnaryMinusNode c) vars.
Proof. destruct c as [[n|s]|d|op l r]; reflexivity. Qed.

Lemma fold_constants_evaluate op l r vars n :
  evaluate (BinaryOpNode op l r) vars = Returns n ->
  exists t', fold_constants op l r = Returns t' /\ evaluate t' vars = Returns n.
Proof.
  intros H. unfold fold_constants.
  destruct l as [[a|a]|c|lop l1 l2]; try (eexists; split; [reflexivity|exact H]).
  destruct r as [[b|b]|d|rop r1 r2]; try (eexists; split; [reflexivity|exact H]).
  cbn in H |- *. rewrite H. eauto.
Qed.

Lemma simplify_fuel_evaluate fuel : forall t r vars n,
  simplify_fuel fuel t = Some r -> evaluate t vars = Returns n ->
  exists t', r = Returns t' /\ evaluate t' vars = Returns n.
Proof.
  induction fuel as [|fuel IH]; intros t r vars n H Hev; [discriminate|].
  destruct t as [v|c|op l r0].
  - injection H as <-. eauto.
  - rewrite simplify_fuel_UnaryMinusNode in H. cbn in Hev.
    destruct (evaluate c vars) as [m|e] eqn:Hc; [|discriminate].
    apply and_then_Some in H as [(c' & Hs & H)|(e & Hs & ->)].
    + destruct (IH _ _ _ _ Hs Hc) as (c'' & [= <-] & Hc').
      injection H as <-. eexists; split; [reflexivity|].
      rewrite UnaryMinusNode_fold_evaluate. cbn. rewrite Hc'. exact Hev.
    + destruct (IH _ _ _ _ Hs Hc) as (c'' & [=] & _).
  - rewrite simplify_fuel_BinaryOpNode in H.
    apply evaluate_BinaryOpNode_inv in Hev as (a & b & Ha & Hb & Hop).
    apply and_then_Some in H as [(left' & Hl & H)|(e & Hl & ->)];
      [|destruct (IH _ _ _ _ Hl Ha) as (? & [=] & _)].
    destruct (IH _ _ _ _ Hl Ha) as (? & [= <-] & Ha').
    apply and_then_Some in H as [(right' & Hr & H)|(e & Hr & ->)];
      [|destruct (IH _ _ _ _ Hr Hb) as (? & [=] & _)].
    destruct (IH _ _ _ _ Hr Hb) as (? & [= <-] & Hb').
    destruct (factoring_of op left' right') as [l1 r1 l2|l1 l2 r2|] eqn:F.
    + apply factoring_of_FactorRight in F as (r2 & -> & -> & <- & Hpm).
      apply evaluate_BinaryOpNode_inv in Ha' as (a1 & a2 & Ha1 & Ha2 & [= <-]).
      apply evaluate_BinaryOpNode_inv in Hb' as (b1 & b2 & Hb1 & Hb2 & [= <-]).
      assert (b2 = a2) as -> by congruence.
      assert (Hin : exists m, apply_op op a1 b1 = Returns m /\ m * a2 = n).
      { destruct (apply_op_plus_or_minus op a1 b1 Hpm) as [[-> ->]|[-> ->]];
          eexists; (split; [reflexivity|]); cbn in Hop;
          injection Hop as <-; ring. }
      destruct Hin as (m & Hm & <-).
      apply and_then_Some in H as [(inner & Hi & H)|(e & Hi & ->)].
      * destruct (IH _ _ vars m Hi) as (? & [= <-] & Hi').
        { rewrite (evaluate_BinaryOpNode _ _ _ _ _ _ Ha1 Hb1). exact Hm. }
        apply (IH _ _ vars _ H).
        rewrite (evaluate_BinaryOpNode _ _ _ _ _ _ Hi' Ha2). reflexivity.
      * destruct (IH _ _ vars m Hi) as (? & [=] & _).
        rewrite (evaluate_BinaryOpNode _ _ _ _ _ _ Ha1 Hb1). exact Hm.
    + apply factoring_of_FactorLeft in F as (-> & -> & _ & Hpm).
      apply evaluate_BinaryOpNode_inv in Ha' as (a1 & a2 & Ha1 & Ha2 & [= <-]).
      apply evaluate_BinaryOpNode_inv in Hb' as (b1 & b2 & Hb1 & Hb2 & [= <-]).
      assert (b1 = a1) as -> by congruence.
      assert (Hin : exists m, apply_op op a2 b2 = Returns m /\ a1 * m = n).
      { destruct (apply_op_plus_or_minus op a2 b2 Hpm) as [[-> ->]|[-> ->]];
          eexists; (split; [reflexivity|]); cbn in Hop;
          injection Hop as <-; ring. }
      destruct Hin as (m & Hm & <-).
      apply and_then_Some in H as [(inner & Hi & H)|(e & Hi & ->)].
      * destruct (IH _ _ vars m Hi) as (? & [= <-] & Hi').
        { rewrite (evaluate_BinaryOpNode _ _ _ _ _ _ Ha2 Hb2). exact Hm. }
        apply (IH _ _ vars _ H).
        rewrite (evaluate_BinaryOpNode _ _ _ _ _ _ Ha1 Hi'). reflexivity.
      * destruct (IH _ _ vars m Hi) as (? & [=] & _).
        rewrite (evaluate_BinaryOpNode _ _ _ _ _ _ Ha2 Hb2). exact Hm.
    + injection H as <-. apply fold_constants_evaluate.
      rewrite (evaluate_BinaryOpNode _ _ _ _ _ _ Ha' Hb'). exact Hop.
Qed.

(** ** simplify applied twice *)

Lemma simplify_fuel_fixpoint fuel : forall t t',
  simplify_fuel fuel t = Some (Returns t') ->
  exists fuel', simplify_fuel fuel' t' = Some (Returns t').
Proof.
  induction fuel as [|fuel IH]; intros t t' H; [discriminate|].
  destruct t as [v|c|op l r].
  - injection H as <-. exists 1%nat. reflexivity.
  - rewrite simplify_fuel_UnaryMinusNode in H.
    apply and_then_Some in H as [(c' & Hs & [= <-])|(e & _ & [=])].
    destruct (IH _ _ Hs) as (f & Hf).
    destruct c' as [[n|s]|d|op l r]; cbn [UnaryMinusNode_fold];
      try (exists 1%nat; reflexivity);
      exists (S f); rewrite simplify_fuel_UnaryMinusNode, Hf; reflexivity.
  - rewrite simplify_fuel_BinaryOpNode in H.
    apply and_then_Some in H as [(left' & Hl & H)|(e & _ & [=])].
    apply and_then_Some in H as [(right' & Hr & H)|(e & _ & [=])].
    destruct (factoring_of op left' right') as [l1 r1 l2|l1 l2 r2|] eqn:F.
    + apply and_then_Some in H as [(inner & _ & H)|(e & _ & [=])]. eauto.
    + apply and_then_Some in H as [(inner & _ & H)|(e & _ & [=])]. eauto.
    + injection H as H.
      destruct (IH _ _ Hl) as (f1 & Hf1). destruct (IH _ _ Hr) as (f2 & Hf2).
      assert (Hre : simplify_fuel (S (Nat.max f1 f2)) (BinaryOpNode op left' right')
                    = Some (fold_constants op left' right')).
      { rewrite simplify_fuel_BinaryOpNode.
        rewrite (simplify_fuel_mono _ _ _ Hf1 (Nat.max f1 f2)) by lia.
        rewrite (simplify_fuel_mono _ _ _ Hf2 (Nat.max f1 f2)) by lia.
        cbn [and_then]. rewrite F. reflexivity. }
      unfold fold_constants in H.
      destruct left' as [[a|a]|c|lop a1 a2];
        try (injection H as <-; eexists; rewrite Hre; reflexivity).
      destruct right' as [[b|b]|d|rop b1 b2];
        try (injection H as <-; eexists; rewrite Hre; reflexivity).
      destruct (evaluate _ _); [|discriminate].
      injection H as <-. exists 1%nat. reflexivity.
Qed.

(** ** The equations of simplify *)

Lemma simplify_fuel_size t : simplify_fuel (size t) t = Some (simplify t).
Proof.
  destruct (simplify_fuel_enough (size t) t) as (r & H & _); [lia|].
  rewrite H. f_equal. symmetry. apply simplify_iff. eauto.
Qed.

Lemma simplify_UnaryMinusNode child :
  simplify (UnaryMinusNode child) =
  result_bind (simplify child) (fun child' => Returns (UnaryMinusNode_fold child')).
Proof.
  pose proof (simplify_fuel_size (UnaryMinusNode child)) as H.
  cbn [size] in H. rewrite simplify_fuel_UnaryMinusNode in H.
  apply and_then_Some in H as [(c' & Hc & H)|(e & Hc & H)];
    apply simplify_fuel_simplify in Hc; rewrite Hc; cbn; congruence.
Qed.

Lemma simplify_BinaryOpNode op l r :
  simplify (BinaryOpNode op l r) =
  result_bind (simplify l) (fun left' =>
  result_bind (simplify r) (fun right' =>
  match factoring_of op left' right' with
  | FactorRight l1 r1 l2 =>
      result_bind (simplify (BinaryOpNode op l1 r1)) (fun inner =>
      simplify (BinaryOpNode "*" inner l2))
  | FactorLeft l1 l2 r2 =>
      result_bind (simplify (BinaryOpNode op l2 r2)) (fun inner =>
      simplify (BinaryOpNode "*" l1 inner))
  | NoFactoring => fold_constants op left' right'
  end)).
Proof.
  pose proof (simplify_fuel_size (BinaryOpNode op l r)) as H.
  cbn [size] in H. rewrite simplify_fuel_BinaryOpNode in H.
  apply and_then_Some in H as [(left' & Hl & H)|(e & Hl & H)];
    apply simplify_fuel_simplify in Hl; rewrite Hl; cbn [result_bind];
    [|congruence].
  apply and_then_Some in H as [(right' & Hr & H)|(e & Hr & H)];
    apply simplify_fuel_simplify in Hr; rewrite Hr; cbn [result_bind];
    [|congruence].
  destruct (factoring_of op left' right') as [l1 r1 l2|l1 l2 r2|].
  - apply and_then_Some in H as [(inner & Hi & H)|(e & Hi & H)];
      apply simplify_fuel_simplify in Hi; rewrite Hi; cbn [result_bind];
      [|congruence].
    apply simplify_fuel_simplify in H. congruence.
  - apply and_then_Some in H as [(inner & Hi & H)|(e & Hi & H)];
      apply simplify_fuel_simplify in Hi; rewrite Hi; cbn [result_bind];
      [|congruence].
    apply simplify_fuel_simplify in H. congruence.
  - congruence.
Qed.

(** ** Errors of simplify *)

Section Operators.
Variable ok : string -> bool.
Hypothesis ok_times : ok "*" = true.

Lemma UnaryMinusNode_fold_operators_in c :
  operators_in ok (UnaryMinusNode_fold c) = operators_in ok c.
Proof using Type. destruct c as [[n|s]|d|op l r]; reflexivity. Qed.

Lemma fold_constants_operators_in op l r t :
  operators_in ok (BinaryOpNode op l r) = true ->
  fold_constants op l r = Returns t -> operators_in ok t = true.
Proof using Type.
  intros Hok. unfold fold_constants.
  destruct l as [[a|a]|c|lop l1 l2]; try (intros [= <-]; exact Hok).
  destruct r as [[b|b]|d|rop r1 r2]; try (intros [= <-]; exact Hok).
  destruct (evaluate _ _); intros [= <-]; reflexivity.
Qed.

Lemma fold_constants_Raises op l r e :
  fold_constants op l r = Raises e -> exists a b, apply_op op a b = Raises e.
Proof using Type.
  unfold fold_constants.
  destruct l as [[a|a]|c|lop l1 l2]; try discriminate.
  destruct r as [[b|b]|d|rop r1 r2]; try discriminate.
  cbn. destruct (apply_op op a b) eqn:E; [discriminate|].
  intros [= <-]. eauto.
Qed.

(** The operators of the result are operators of the argument, or [*]; an
    exception comes from the operator dispatch of [evaluate] at one of them. *)
Lemma simplify_fuel_operators_in fuel : forall t r,
  operators_in ok t = true -> simplify_fuel fuel t = Some r ->
  match r with
  | Returns t' => operators_in ok t' = true
  | Raises e => exists op a b, ok op = true /\ apply_op op a b = Raises e
  end.
Proof using ok_times.
  induction fuel as [|fuel IH]; intros t r Hok H; [discriminate|].
  destruct t as [v|c|op l r0].
  - injection H as <-. exact Hok.
  - rewrite simplify_fuel_UnaryMinusNode in H. cbn in Hok.
    apply and_then_Some in H as [(c' & Hs & [= <-])|(e & Hs & ->)].
    + rewrite UnaryMinusNode_fold_operators_in. exact (IH _ _ Hok Hs).
    + exact (IH _ _ Hok Hs).
  - rewrite simplify_fuel_BinaryOpNode in H. cbn in Hok.
    apply andb_true_iff in Hok as [Hok Hr0].
    apply andb_true_iff in Hok as [Hop Hl0].
    apply and_then_Some in H as [(left' & Hl & H)|(e & Hl & ->)];
      [|exact (IH _ _ Hl0 Hl)].
    apply and_then_Some in H as [(right' & Hr & H)|(e & Hr & ->)];
      [|exact (IH _ _ Hr0 Hr)].
    pose proof (IH _ _ Hl0 Hl) as Hl'. pose proof (IH _ _ Hr0 Hr) as Hr'.
    cbn beta iota in Hl', Hr'.
    destruct (factoring_of op left' right') as [l1 r1 l2|l1 l2 r2|] eqn:F.
    + apply factoring_of_FactorRight in F as (r2 & -> & -> & <- & _).
      cbn in Hl', Hr'.
      rewrite ok_times in Hl', Hr'. cbn in Hl', Hr'.
      apply andb_true_iff in Hl' as [Hl1 Hl2]. apply andb_true_iff in Hr' as [Hr1 _].
      assert (Hin : operators_in ok (BinaryOpNode op l1 r1) = true).
      { cbn. rewrite Hop, Hl1, Hr1. reflexivity. }
      apply and_then_Some in H as [(inner & Hi & H)|(e & Hi & ->)];
        [|exact (IH _ _ Hin Hi)].
      pose proof (IH _ _ Hin Hi) as Hi'. cbn beta iota in Hi'.
      apply (IH (BinaryOpNode "*" inner l2)); [|exact H].
      cbn. rewrite ok_times, Hi', Hl2. reflexivity.
    + apply factoring_of_FactorLeft in F as (-> & -> & _ & _).
      cbn in Hl', Hr'.
      rewrite ok_times in Hl', Hr'. cbn in Hl', Hr'.
      apply andb_true_iff in Hl' as [Hl1 Hl2]. apply andb_true_iff in Hr' as [_ Hr2].
      assert (Hin : operators_in ok (BinaryOpNode op l2 r2) = true).
      { cbn. rewrite Hop, Hl2, Hr2. reflexivity. }
      apply and_then_Some in H as [(inner & Hi & H)|(e & Hi & ->)];
        [|exact (IH _ _ Hin Hi)].
      pose proof (IH _ _ Hin Hi) as Hi'. cbn beta iota in Hi'.
      apply (IH (BinaryOpNode "*" l1 inner)); [|exact H].
      cbn. rewrite ok_times, Hi', Hl1. reflexivity.
    + injection H as <-.
      destruct (fold_constants op left' right') as [t'|e] eqn:E.
      * apply (fold_constants_operators_in op left' right'); [|exact E].
        cbn. rewrite Hop, Hl', Hr'. reflexivity.
      * apply fold_constants_Raises in E as (a & b & E). eauto.
Qed.
End Operators.

Lemma apply_op_binary_operator op a b e :
  is_binary_operator op = true -> apply_op op a b = Raises e ->
  e = ZeroDivisionError.
Proof.
  unfold is_binary_operator, apply_op.
  destruct (String.eqb op "+"); [discriminate|].
  destruct (String.eqb op "-"); [discriminate|].
  destruct (String.eqb op "*"); [discriminate|].
  destruct (String.eqb op "/"); [|discriminate].
  destruct (b =? 0); [|discriminate]. congruence.
Qed.

Lemma apply_op_ring_operator op a b e :
  is_ring_operator op = true -> apply_op op a b <> Raises e.
Proof.
  unfold is_ring_operator, apply_op.
  destruct (String.eqb op "+"); [discriminate|].
  destruct (String.eqb op "-"); [discriminate|].
  destruct (String.eqb op "*"); discriminate.
Qed.

(** * Properties of the parser *)

Lemma _parse_expression_S fuel min_priority st :
  _parse_expression (S fuel) min_priority st =
  and_then (_parse_unary fuel st) (fun '(node, st1) =>
  _parse_expression_loop fuel min_priority node st1).
Proof.
  cbn [_parse_expression and_then].
  destruct (_parse_unary fuel st) as [[[node st1]|e]|]; reflexivity.
Qed.

Lemma _parse_expression_loop_S fuel min_priority node st :
  _parse_expression_loop (S fuel) min_priority node st =
  match st with
  | EmptyString => Some (Returns (node, st))
  | String op st1 =>
      if is_operator op && (min_priority <=? _priority op) then
        and_then (_parse_expression fuel (_priority op + 1) st1) (fun '(right_, st2) =>
        _parse_expression_loop fuel min_priority
          (BinaryOpNode (String op EmptyString) node right_) st2)
      else Some (Returns (node, st))
  end.
Proof.
  cbn [_parse_expression_loop and_then].
  destruct st as [|op st1]; [reflexivity|].
  destruct (is_operator op && (min_priority <=? _priority op)); [|reflexivity].
  destruct (_parse_expression fuel (_priority op + 1) st1) as [[[right_ st2]|e]|];
    reflexivity.
Qed.

Lemma _parse_unary_S fuel st :
  _parse_unary (S fuel) st =
  match st with
  | EmptyString => _parse_primary fuel st
  | String ch st1 =>
      if Ascii.eqb ch "-" then
        and_then (_parse_unary fuel st1) (fun '(child, st2) =>
        Some (Returns (UnaryMinusNode child, st2)))
      else _parse_primary fuel st
  end.
Proof.
  cbn [_parse_unary and_then].
  destruct st as [|ch st1]; [reflexivity|].
  destruct (Ascii.eqb ch "-"); [|reflexivity].
  destruct (_parse_unary fuel st1) as [[[child st2]|e]|]; reflexivity.
Qed.

Lemma _parse_primary_S fuel st :
  _parse_primary (S fuel) st =
  match st with
  | EmptyString => Some (Raises ParseError)
  | String ch st1 =>
      if Ascii.eqb ch "(" then
        and_then (_parse_expression fuel 0 st1) (fun '(node, st2) =>
        expect_closing node st2)
      else if isdigit ch then Some (_parse_number st)
      else if isalpha ch then
        Some (Returns (ValueNode (VStr (String ch EmptyString)), st1))
      else Some (Raises ParseError)
  end.
Proof.
  cbn [_parse_primary and_then].
  destruct st as [|ch st1]; [reflexivity|].
  destruct (Ascii.eqb ch "("); [|reflexivity].
  destruct (_parse_expression fuel 0 st1) as [[[node st2]|e]|]; reflexivity.
Qed.

Lemma and_then_pair_Some {A B C} (c : option (result (A * B)))
    (k : A * B -> option (result C)) r :
  and_then c k = Some r ->
  (exists a b, c = Some (Returns (a, b)) /\ k (a, b) = Some r) \/
  (exists e, c = Some (Raises e) /\ r = Raises e).
Proof.
  intros H. apply and_then_Some in H as [([a b] & Hc & H)|H]; eauto.
Qed.

(** ** More fuel does not change what the parser does *)

Lemma parser_mono fuel : parser_mono_at fuel.
Proof.
  induction fuel as [|fuel (IHe & IHl & IHu & IHp)].
  { repeat split; intros; discriminate. }
  repeat split.
  - intros p st r H [|fuel'] Hle; [lia|]. assert ((fuel <= fuel')%nat) by lia.
    rewrite _parse_expression_S in *.
    apply and_then_pair_Some in H as [(node & st1 & Hu & H)|(e & Hu & ->)];
      rewrite (IHu _ _ Hu fuel') by assumption; cbn [and_then]; eauto.
  - intros p node st r H [|fuel'] Hle; [lia|]. assert ((fuel <= fuel')%nat) by lia.
    rewrite _parse_expression_loop_S in *.
    destruct st as [|op st1]; [exact H|].
    destruct (is_operator op && (p <=? _priority op)); [|exact H].
    apply and_then_pair_Some in H as [(right_ & st2 & He & H)|(e & He & ->)];
      rewrite (IHe _ _ _ He fuel') by assumption; cbn [and_then]; eauto.
  - intros st r H [|fuel'] Hle; [lia|]. assert ((fuel <= fuel')%nat) by lia.
    rewrite _parse_unary_S in *.
    destruct st as [|ch st1]; [eauto|].
    destruct (Ascii.eqb ch "-"); [|eauto].
    apply and_then_pair_Some in H as [(child & st2 & Hu & H)|(e & Hu & ->)];
      rewrite (IHu _ _ Hu fuel') by assumption; cbn [and_then]; eauto.
  - intros st r H [|fuel'] Hle; [lia|]. assert ((fuel <= fuel')%nat) by lia.
    rewrite _parse_primary_S in *.
    destruct st as [|ch st1]; [exact H|].
    destruct (Ascii.eqb ch "("); [|exact H].
    apply and_then_pair_Some in H as [(node & st2 & He & H)|(e & He & ->)];
      rewrite (IHe _ _ _ He fuel') by assumption; cbn [and_then]; eauto.
Qed.

Lemma parse_fuel_mono fuel expr r :
  parse_fuel fuel expr = Some r ->
  forall fuel', (fuel <= fuel')%nat -> parse_fuel fuel' expr = Some r.
Proof.
  unfold parse_fuel. intros H fuel' Hle.
  destruct (_parse_expression fuel 0 (remove_spaces expr)) as [res|] eqn:E;
    [|discriminate].
  rewrite (proj1 (parser_mono fuel) _ _ _ E fuel' Hle). exact H.
Qed.

(** ** The parser terminates *)

Lemma scan_digits_length st :
  (String.length (snd (scan_digits st)) <= String.length st)%nat.
Proof.
  induction st as [|ch st IH]; cbn; [lia|].
  destruct (isdigit ch); cbn; [|lia].
  destruct (scan_digits st) as [digits rest]. cbn in *. lia.
Qed.

Lemma _parse_number_length ch st1 t st' :
  isdigit ch = true ->
  _parse_number (String ch st1) = Returns (t, st') ->
  (String.length st' <= String.length st1)%nat.
Proof.
  unfold _parse_number. cbn [scan_digits]. intros ->.
  pose proof (scan_digits_length st1) as H.
  destruct (scan_digits st1) as [digits rest]. cbn in H.
  destruct (int _); intros [= _ <-]. exact H.
Qed.

Lemma parser_consumes fuel : parser_consumes_at fuel.
Proof.
  induction fuel as [|fuel (IHe & IHl & IHu & IHp)].
  { repeat split; intros; discriminate. }
  repeat split.
  - intros p st t st' H. rewrite _parse_expression_S in H.
    apply and_then_pair_Some in H as [(node & st1 & Hu & H)|(e & _ & [=])].
    apply IHu in Hu. apply IHl in H. lia.
  - intros p node st t st' H. rewrite _parse_expression_loop_S in H.
    destruct st as [|op st1]; [injection H as _ <-; lia|].
    destruct (is_operator op && (p <=? _priority op));
      [|injection H as _ <-; lia].
    apply and_then_pair_Some in H as [(right_ & st2 & He & H)|(e & _ & [=])].
    apply IHe in He. apply IHl in H. cbn. lia.
  - intros st t st' H. rewrite _parse_unary_S in H.
    destruct st as [|ch st1]; [eauto|].
    destruct (Ascii.eqb ch "-"); [|eauto].
    apply and_then_pair_Some in H as [(child & st2 & Hu & [= _ <-])|(e & _ & [=])].
    apply IHu in Hu. cbn. lia.
  - intros st t st' H. rewrite _parse_primary_S in H.
    destruct st as [|ch st1]; [discriminate|].
    destruct (Ascii.eqb ch "(").
    + apply and_then_pair_Some in H as [(node & st2 & He & H)|(e & _ & [=])].
      apply IHe in He. unfold expect_closing in H.
      destruct st2 as [|ch2 st3]; [discriminate|].
      destruct (Ascii.eqb ch2 ")"); [|discriminate].
      injection H as _ <-. cbn in *. lia.
    + destruct (isdigit ch) eqn:Hd.
      * injection H as H. apply (_parse_number_length _ _ _ _ Hd) in H. cbn. lia.
      * destruct (isalpha ch); [|discriminate]. injection H as _ <-. cbn. lia.
Qed.

Lemma parser_total fuel : parser_total_at fuel.
Proof.
  induction fuel as [|fuel (IHe & IHl & IHu & IHp)].
  { repeat split; intros; lia. }
  destruct (parser_consumes fuel) as (Ce & Cl & Cu & Cp).
  repeat split.
  - intros p st Hf. rewrite _parse_expression_S.
    destruct (IHu st) as ([[node st1]|e] & Hu); [lia| |]; rewrite Hu;
      cbn [and_then]; [|eauto].
    apply Cu in Hu. apply IHl. lia.
  - intros p node st Hf. rewrite _parse_expression_loop_S.
    destruct st as [|op st1]; [eauto|].
    destruct (is_operator op && (p <=? _priority op)); [|eauto].
    cbn in Hf.
    destruct (IHe (_priority op + 1) st1) as ([[right_ st2]|e] & He); [lia| |];
      rewrite He; cbn [and_then]; [|eauto].
    apply Ce in He. apply IHl. lia.
  - intros st Hf. rewrite _parse_unary_S.
    destruct st as [|ch st1]; [apply IHp; lia|].
    destruct (Ascii.eqb ch "-"); [|apply IHp; lia].
    cbn in Hf.
    destruct (IHu st1) as ([[child st2]|e] & Hu); [lia| |]; rewrite Hu;
      cbn [and_then]; eauto.
  - intros st Hf. rewrite _parse_primary_S.
    destruct st as [|ch st1]; [eauto|].
    destruct (Ascii.eqb ch "(").
    + cbn in Hf.
      destruct (IHe 0 st1) as ([[node st2]|e] & He); [lia| |]; rewrite He;
        cbn [and_then]; [|eauto].
      unfold expect_closing. destruct st2 as [|ch2 st3]; [eauto|].
      destruct (Ascii.eqb ch2 ")"); eauto.
    + destruct (isdigit ch); [eauto|]. destruct (isalpha ch); eauto.
Qed.

(** [parse] terminates: the depth [parse_depth expr] is enough. *)
Lemma parse_fuel_enough expr :
  parse_fuel (parse_depth expr) expr = Some (parse expr).
Proof.
  unfold parse.
  destruct (proj1 (parser_total (parse_depth expr)) 0 (remove_spaces expr))
    as (r & H); [unfold parse_depth; lia|].
  unfold parse_fuel. rewrite H.
  destruct r as [[tree [|ch rest]]|e]; reflexivity.
Qed.

Lemma parse_iff expr r :
  parse expr = r <-> exists fuel, parse_fuel fuel expr = Some r.
Proof.
  pose proof (parse_fuel_enough expr) as H0. split.
  - intros <-. eauto.
  - intros (fuel & H).
    pose proof (parse_fuel_mono _ _ _ H (Nat.max fuel (parse_depth expr))) as H1.
    pose proof (parse_fuel_mono _ _ _ H0 (Nat.max fuel (parse_depth expr))) as H2.
    rewrite H1 in H2 by lia. specialize (H2 ltac:(lia)). congruence.
Qed.

(** ** Literals of parsed trees *)

Lemma is_decimal_code ch : is_decimal ch = true -> 48 <= code ch <= 57.
Proof. unfold is_decimal. lia. Qed.

Lemma int_acc_nonneg s : forall acc n,
  0 <= acc -> int_acc s acc = Returns n -> 0 <= n.
Proof.
  induction s as [|ch s IH]; cbn; intros acc n Hacc H.
  - congruence.
  - destruct (is_decimal ch) eqn:Hd; [|discriminate].
    apply is_decimal_code in Hd. apply (IH _ _) in H; [exact H|].
    unfold digit_value. lia.
Qed.

Lemma _parse_number_nonneg st t st' :
  _parse_number st = Returns (t, st') -> literals_nonneg t = true.
Proof.
  unfold _parse_number. destruct (scan_digits st) as [digits rest].
  destruct (int digits) as [n|e] eqn:E; [|discriminate].
  intros [= <- _]. cbn. apply Z.leb_le.
  destruct digits as [|ch digits]; [discriminate|].
  apply (int_acc_nonneg (String ch digits) 0 n); [lia|exact E].
Qed.

Lemma parser_nonneg fuel : parser_nonneg_at fuel.
Proof.
  induction fuel as [|fuel (IHe & IHl & IHu & IHp)].
  { repeat split; intros; discriminate. }
  repeat split.
  - intros p st t st' H. rewrite _parse_expression_S in H.
    apply and_then_pair_Some in H as [(node & st1 & Hu & H)|(e & _ & [=])].
    apply IHu in Hu. exact (IHl _ _ _ _ _ Hu H).
  - intros p node st t st' Hnode H. rewrite _parse_expression_loop_S in H.
    destruct st as [|op st1]; [congruence|].
    destruct (is_operator op && (p <=? _priority op)); [|congruence].
    apply and_then_pair_Some in H as [(right_ & st2 & He & H)|(e & _ & [=])].
    apply IHe in He. apply IHl in H; [exact H|].
    cbn. rewrite Hnode, He. reflexivity.
  - intros st t st' H. rewrite _parse_unary_S in H.
    destruct st as [|ch st1]; [eauto|].
    destruct (Ascii.eqb ch "-"); [|eauto].
    apply and_then_pair_Some in H as [(child & st2 & Hu & [= <- _])|(e & _ & [=])].
    cbn. eauto.
  - intros st t st' H. rewrite _parse_primary_S in H.
    destruct st as [|ch st1]; [discriminate|].
    destruct (Ascii.eqb ch "(").
    + apply and_then_pair_Some in H as [(node & st2 & He & H)|(e & _ & [=])].
      unfold expect_closing in H. destruct st2 as [|ch2 st3]; [discriminate|].
      destruct (Ascii.eqb ch2 ")"); [|discriminate]. injection H as <- _. eauto.
    + destruct (isdigit ch).
      * injection H as H. exact (_parse_number_nonneg _ _ _ H).
      * destruct (isalpha ch); [|discriminate]. injection H as <- _. reflexivity.
Qed.

(** ** Parentheses around a formula *)

Lemma append_String ch (a b : string) : String ch a ++ b = String ch (a ++ b).
Proof. reflexivity. Qed.

Lemma append_EmptyString (b : string) : EmptyString ++ b = b.
Proof. reflexivity. Qed.

Ltac string_step := rewrite ?append_String, ?append_EmptyString.

Lemma append_assoc (a b c : string) : (a ++ b) ++ c = a ++ (b ++ c).
Proof.
  induction a as [|ch a IH]; string_step; [reflexivity|]. f_equal. exact IH.
Qed.

Lemma remove_spaces_append a b :
  remove_spaces (a ++ b) = remove_spaces a ++ remove_spaces b.
Proof.
  induction a as [|ch a IH]; string_step; [reflexivity|].
  cbn [remove_spaces]. destruct (Ascii.eqb ch " "); string_step;
    rewrite IH; reflexivity.
Qed.

Lemma scan_digits_append st ch suffix :
  isdigit ch = false ->
  scan_digits (st ++ String ch suffix) =
  (fst (scan_digits st), snd (scan_digits st) ++ String ch suffix).
Proof.
  intros Hch. induction st as [|c st IH]; string_step; cbn [scan_digits].
  - rewrite Hch. reflexivity.
  - destruct (isdigit c); [|reflexivity].
    rewrite IH. destruct (scan_digits st) as [digits rest]. reflexivity.
Qed.

Lemma _parse_number_append st ch suffix t st' :
  isdigit ch = false ->
  _parse_number st = Returns (t, st') ->
  _parse_number (st ++ String ch suffix) = Returns (t, st' ++ String ch suffix).
Proof.
  unfold _parse_number. intros Hch. rewrite (scan_digits_append _ _ _ Hch).
  destruct (scan_digits st) as [digits rest]. cbn [fst snd].
  destruct (int digits); [|discriminate]. intros [= <- <-]. reflexivity.
Qed.

Lemma parser_extends fuel : parser_extends_at fuel.
Proof.
  induction fuel as [|fuel IH]; intros suffix.
  { repeat split; intros; discriminate. }
  destruct (IH suffix) as (IHe & IHl & IHu & IHp).
  repeat split.
  - intros p st t st' H. rewrite _parse_expression_S in *.
    apply and_then_pair_Some in H as [(node & st1 & Hu & H)|(e & _ & [=])].
    rewrite (IHu _ _ _ Hu). cbn [and_then]. eauto.
  - intros p node st t st' H. rewrite _parse_expression_loop_S in *.
    destruct st as [|op st1]; [injection H as <- <-; reflexivity|].
    string_step.
    destruct (is_operator op && (p <=? _priority op));
      [|injection H as <- <-; reflexivity].
    apply and_then_pair_Some in H as [(right_ & st2 & He & H)|(e & _ & [=])].
    rewrite (IHe _ _ _ _ He). cbn [and_then]. eauto.
  - intros st t st' H. rewrite _parse_unary_S in *.
    destruct st as [|ch st1]; [exact (IHp _ _ _ H)|].
    string_step.
    destruct (Ascii.eqb ch "-"); [|exact (IHp _ _ _ H)].
    apply and_then_pair_Some in H as [(child & st2 & Hu & [= <- <-])|(e & _ & [=])].
    rewrite (IHu _ _ _ Hu). reflexivity.
  - intros st t st' H. rewrite _parse_primary_S in *.
    destruct st as [|ch st1]; [discriminate|].
    string_step.
    destruct (Ascii.eqb ch "(").
    + apply and_then_pair_Some in H as [(node & st2 & He & H)|(e & _ & [=])].
      rewrite (IHe _ _ _ _ He). cbn [and_then].
      unfold expect_closing in *. destruct st2 as [|ch2 st3]; [discriminate|].
      string_step.
      destruct (Ascii.eqb ch2 ")"); [|discriminate]. injection H as <- <-.
      reflexivity.
    + destruct (isdigit ch).
      * injection H as H. f_equal. rewrite <- append_String.
        apply _parse_number_append; [reflexivity|exact H].
      * destruct (isalpha ch); [|discriminate]. injection H as <- <-. reflexivity.
Qed.

Lemma parse_fuel_parentheses fuel expr t :
  parse_fuel fuel expr = Some (Returns t) ->
  parse_fuel (S (S (S fuel))) ("(" ++ expr ++ ")") = Some (Returns t).
Proof.
  unfold parse_fuel. intros H.
  destruct (_parse_expression fuel 0 (remove_spaces expr))
    as [[[tree rest]|e]|] eqn:E; [|discriminate..].
  destruct rest as [|ch rest]; [|discriminate]. injection H as ->.
  apply (proj1 (parser_extends fuel EmptyString)) in E.
  rewrite !remove_spaces_append. cbn [remove_spaces Ascii.eqb Bool.eqb].
  string_step.
  rewrite _parse_expression_S, _parse_unary_S. cbn [Ascii.eqb Bool.eqb].
  rewrite _parse_primary_S. cbn [Ascii.eqb Bool.eqb].
  rewrite E. string_step. reflexivity.
Qed.

(** ** Decimal numerals *)

Lemma code_digit_char d : 0 <= d < 10 -> code (digit_char d) = 48 + d.
Proof.
  intros Hd. unfold code, digit_char.
  rewrite N_ascii_embedding by lia. lia.
Qed.

Lemma is_decimal_digit_char d : 0 <= d < 10 -> is_decimal (digit_char d) = true.
Proof. intros Hd. unfold is_decimal. rewrite (code_digit_char d Hd). lia. Qed.

Lemma digit_value_digit_char d : 0 <= d < 10 -> digit_value (digit_char d) = d.
Proof. intros Hd. unfold digit_value. rewrite (code_digit_char d Hd). lia. Qed.

Lemma int_acc_append s1 s2 acc :
  int_acc (s1 ++ s2) acc = result_bind (int_acc s1 acc) (int_acc s2).
Proof.
  revert acc. induction s1 as [|ch s1 IH]; intros acc; string_step;
    [reflexivity|].
  cbn [int_acc]. destruct (is_decimal ch); [apply IH|reflexivity].
Qed.

Lemma all_decimal_append s1 s2 :
  all_decimal (s1 ++ s2) = all_decimal s1 && all_decimal s2.
Proof.
  induction s1 as [|ch s1 IH]; string_step; [reflexivity|].
  cbn [all_decimal]. rewrite IH, andb_assoc. reflexivity.
Qed.

(** [str_digits] writes the numeral of [n] before [acc]. *)
Lemma str_digits_spec fuel : forall n acc,
  0 <= n < 2 ^ Z.of_nat (S fuel) ->
  exists ch d,
    str_digits (S fuel) n acc = String ch d ++ acc /\
    all_decimal (String ch d) = true /\
    exists m, forall a, int_acc (String ch d) a = Returns (a * m + n).
Proof.
  induction fuel as [|fuel IH]; intros n acc Hn.
  - exists (digit_char n), EmptyString.
    assert (Hlt : 0 <= n < 10) by (cbn in Hn; lia).
    cbn [str_digits]. rewrite (Z.mod_small n 10), (Z.div_small n 10) by lia.
    cbn [Z.eqb]. split; [reflexivity|]. split.
    + cbn. rewrite is_decimal_digit_char by lia. reflexivity.
    + exists 10. intros a. cbn.
      rewrite is_decimal_digit_char, digit_value_digit_char by lia.
      f_equal. lia.
  - assert (Hmod : 0 <= n mod 10 < 10) by (apply Z.mod_pos_bound; lia).
    replace (str_digits (S (S fuel)) n acc) with
      (if n / 10 =? 0 then String (digit_char (n mod 10)) acc
       else str_digits (S fuel) (n / 10) (String (digit_char (n mod 10)) acc))
      by reflexivity.
    destruct (Z.eqb_spec (n / 10) 0) as [Hz|Hnz].
    + exists (digit_char (n mod 10)), EmptyString.
      split; [reflexivity|]. split.
      * cbn. rewrite is_decimal_digit_char by lia. reflexivity.
      * exists 10. intros a. cbn.
        rewrite is_decimal_digit_char, digit_value_digit_char by lia.
        f_equal. pose proof (Z.div_mod n 10). lia.
    + destruct (IH (n / 10) (String (digit_char (n mod 10)) acc))
        as (ch & d & Hs & Hd & m & Hm).
      { split; [apply Z.div_pos; lia|].
        apply Z.div_lt_upper_bound; [lia|].
        rewrite Nat2Z.inj_succ, Z.pow_succ_r in Hn by lia. lia. }
      exists ch, (d ++ String (digit_char (n mod 10)) EmptyString).
      split; [|split].
      * rewrite Hs. rewrite <- append_String, append_assoc. reflexivity.
      * rewrite <- append_String, all_decimal_append, Hd. cbn.
        rewrite is_decimal_digit_char by lia. reflexivity.
      * exists (m * 10). intros a.
        rewrite <- append_String, int_acc_append, Hm. cbn.
        rewrite is_decimal_digit_char, digit_value_digit_char by lia.
        f_equal. pose proof (Z.div_mod n 10). lia.
Qed.

Lemma str_nonneg_spec n :
  0 <= n ->
  exists ch d, str_nonneg n = String ch d /\ all_decimal (String ch d) = true /\
               int (String ch d) = Returns n.
Proof.
  intros Hn. unfold str_nonneg.
  destruct (str_digits_spec (Z.to_nat (Z.log2 n)) n EmptyString)
    as (ch & d & Hs & Hd & m & Hm).
  { split; [exact Hn|].
    rewrite Nat2Z.inj_succ, Z2Nat.id by apply Z.log2_nonneg.
    destruct (Z.eq_dec n 0) as [->|Hnz]; [reflexivity|].
    apply Z.log2_spec. lia. }
  exists ch, d. rewrite Hs. split; [|split].
  - clear. generalize (String ch d). intros s.
    induction s as [|c s IH]; string_step; [reflexivity|]. f_equal. exact IH.
  - exact Hd.
  - cbn [int]. rewrite Hm. reflexivity.
Qed.

Lemma is_decimal_isdigit ch : is_decimal ch = true -> isdigit ch = true.
Proof. unfold isdigit. intros ->. reflexivity. Qed.

Lemma scan_digits_all_decimal d rest :
  all_decimal d = true -> no_digit_ahead rest = true ->
  scan_digits (d ++ rest) = (d, rest).
Proof.
  intros Hd Hrest. induction d as [|ch d IH]; string_step.
  - destruct rest as [|c rest]; [reflexivity|].
    cbn in Hrest |- *. destruct (isdigit c); [discriminate|reflexivity].
  - cbn in Hd. apply andb_true_iff in Hd as [Hch Hd].
    cbn [scan_digits]. rewrite (is_decimal_isdigit _ Hch), (IH Hd). reflexivity.
Qed.

Lemma is_decimal_not_space ch : is_decimal ch = true -> Ascii.eqb ch " " = false.
Proof.
  intros H. apply is_decimal_code in H.
  destruct (Ascii.eqb_spec ch " ") as [->|]; [|reflexivity].
  change (code " ") with 32 in H. lia.
Qed.

Lemma remove_spaces_all_decimal d : all_decimal d = true -> remove_spaces d = d.
Proof.
  induction d as [|ch d IH]; [reflexivity|]. cbn.
  intros H. apply andb_true_iff in H as [Hch Hd].
  rewrite (is_decimal_not_space _ Hch), (IH Hd). reflexivity.
Qed.

(** ** Characters *)

Ltac each_character ch :=
  destruct ch as [[|] [|] [|] [|] [|] [|] [|] [|]]; vm_compute;
  repeat split; congruence.

Lemma isalpha_other ch :
  isalpha ch = true ->
  Ascii.eqb ch "-" = false /\ Ascii.eqb ch "(" = false /\
  isdigit ch = false /\ Ascii.eqb ch " " = false.
Proof. each_character ch. Qed.

Lemma is_decimal_other ch :
  is_decimal ch = true ->
  Ascii.eqb ch "-" = false /\ Ascii.eqb ch "(" = false.
Proof. each_character ch. Qed.

Lemma is_operator_other ch :
  is_operator ch = true ->
  isdigit ch = false /\ Ascii.eqb ch " " = false /\ (0 <=? _priority ch) = true.
Proof. each_character ch. Qed.

Lemma is_binary_operator_character op :
  is_binary_operator op = true ->
  exists ch, op = String ch EmptyString /\ is_operator ch = true.
Proof.
  unfold is_binary_operator.
  destruct (String.eqb_spec op "+") as [->|_]; [eexists; split; reflexivity|].
  destruct (String.eqb_spec op "-") as [->|_]; [eexists; split; reflexivity|].
  destruct (String.eqb_spec op "*") as [->|_]; [eexists; split; reflexivity|].
  destruct (String.eqb_spec op "/") as [->|_]; [eexists; split; reflexivity|].
  discriminate.
Qed.

(** ** Steps of the parser, at some recursion depth *)

Lemma eventually_expression p st node st1 r :
  eventually (fun fuel => _parse_unary fuel st) (Returns (node, st1)) ->
  eventually (fun fuel => _parse_expression_loop fuel p node st1) r ->
  eventually (fun fuel => _parse_expression fuel p st) r.
Proof.
  intros (f1 & H1) (f2 & H2). exists (S (Nat.max f1 f2)).
  rewrite _parse_expression_S.
  rewrite (proj1 (proj2 (proj2 (parser_mono f1))) _ _ H1 (Nat.max f1 f2)) by lia.
  cbn [and_then].
  apply (proj1 (proj2 (parser_mono f2)) _ _ _ _ H2). lia.
Qed.

Lemma eventually_loop_end p node st :
  match st with
  | EmptyString => true
  | String ch _ => negb (is_operator ch)
  end = true ->
  eventually (fun fuel => _parse_expression_loop fuel p node st) (Returns (node, st)).
Proof.
  intros H. exists 1%nat. rewrite _parse_expression_loop_S.
  destruct st as [|ch st1]; [reflexivity|].
  destruct (is_operator ch); [discriminate|reflexivity].
Qed.

Lemma eventually_loop_operator p node op st1 right_ st2 r :
  is_operator op = true -> (p <=? _priority op) = true ->
  eventually (fun fuel => _parse_expression fuel (_priority op + 1) st1)
    (Returns (right_, st2)) ->
  eventually (fun fuel => _parse_expression_loop fuel p
                (BinaryOpNode (String op EmptyString) node right_) st2) r ->
  eventually (fun fuel => _parse_expression_loop fuel p node (String op st1)) r.
Proof.
  intros Hop Hp (f1 & H1) (f2 & H2). exists (S (Nat.max f1 f2)).
  rewrite _parse_expression_loop_S, Hop, Hp. cbn [andb].
  rewrite (proj1 (parser_mono f1) _ _ _ H1 (Nat.max f1 f2)) by lia.
  cbn [and_then].
  apply (proj1 (proj2 (parser_mono f2)) _ _ _ _ H2). lia.
Qed.

Lemma eventually_unary_minus st1 child st2 :
  eventually (fun fuel => _parse_unary fuel st1) (Returns (child, st2)) ->
  eventually (fun fuel => _parse_unary fuel (String "-" st1))
    (Returns (UnaryMinusNode child, st2)).
Proof.
  intros (f & H). exists (S f). rewrite _parse_unary_S.
  cbn [Ascii.eqb Bool.eqb]. rewrite H. reflexivity.
Qed.

Lemma eventually_unary_primary ch st1 r :
  Ascii.eqb ch "-" = false ->
  eventually (fun fuel => _parse_primary fuel (String ch st1)) r ->
  eventually (fun fuel => _parse_unary fuel (String ch st1)) r.
Proof.
  intros Hch (f & H). exists (S f). rewrite _parse_unary_S, Hch. exact H.
Qed.

Lemma eventually_primary_parentheses st1 node st3 :
  eventually (fun fuel => _parse_expression fuel 0 st1)
    (Returns (node, String ")" st3)) ->
  eventually (fun fuel => _parse_primary fuel (String "(" st1))
    (Returns (node, st3)).
Proof.
  intros (f & H). exists (S f). rewrite _parse_primary_S.
  cbn [Ascii.eqb Bool.eqb]. rewrite H. reflexivity.
Qed.

(** An operand followed by something that is no operator. *)
Lemma eventually_expression_operand p st node st1 :
  eventually (fun fuel => _parse_unary fuel st) (Returns (node, String ")" st1)) ->
  eventually (fun fuel => _parse_expression fuel p st) (Returns (node, String ")" st1)).
Proof.
  intros H. apply (eventually_expression _ _ _ _ _ H).
  apply eventually_loop_end. reflexivity.
Qed.

(** ** Parsing what to_infix renders *)

Lemma to_infix_unary t :
  well_formed t = true ->
  forall rest, no_digit_ahead rest = true ->
  eventually (fun fuel => _parse_unary fuel (remove_spaces (to_infix t) ++ rest))
    (Returns (t, rest)).
Proof.
  induction t as [[n|s]|c IH|op l IHl r IHr]; intros Hwf rest Hrest.
  - cbn in Hwf. apply Z.leb_le in Hwf.
    cbn [to_infix ValueNode_to_infix]. unfold str_int.
    destruct (Z.ltb_spec n 0) as [|_]; [lia|].
    destruct (str_nonneg_spec n Hwf) as (ch & d & -> & Hd & Hint).
    rewrite (remove_spaces_all_decimal _ Hd).
    pose proof Hd as Hch. cbn in Hch. apply andb_true_iff in Hch as [Hch _].
    destruct (is_decimal_other ch Hch) as (Hm & Hp).
    string_step. apply (eventually_unary_primary _ _ _ Hm).
    exists 1%nat. rewrite _parse_primary_S, Hp, (is_decimal_isdigit _ Hch).
    unfold _parse_number. rewrite <- append_String.
    rewrite (scan_digits_all_decimal _ _ Hd Hrest), Hint. reflexivity.
  - cbn in Hwf. destruct s as [|ch [|ch' s]]; try discriminate.
    destruct (isalpha_other ch Hwf) as (Hm & Hp & Hd & Hs).
    cbn [to_infix ValueNode_to_infix remove_spaces]. rewrite Hs. string_step.
    apply (eventually_unary_primary _ _ _ Hm).
    exists 1%nat. rewrite _parse_primary_S, Hp, Hd, Hwf. reflexivity.
  - cbn in Hwf. cbn [to_infix].
    rewrite !remove_spaces_append. cbn [remove_spaces Ascii.eqb Bool.eqb].
    rewrite !append_assoc. string_step.
    apply eventually_unary_minus.
    apply eventually_unary_primary; [reflexivity|].
    apply eventually_primary_parentheses.
    apply eventually_expression_operand.
    apply (IH Hwf). reflexivity.
  - cbn in Hwf. apply andb_true_iff in Hwf as [Hwf Hr].
    apply andb_true_iff in Hwf as [Hop Hl].
    apply is_binary_operator_character in Hop as (o & -> & Ho).
    destruct (is_operator_other o Ho) as (Hod & Hos & Hprio).
    cbn [to_infix].
    rewrite !remove_spaces_append. cbn [remove_spaces Ascii.eqb Bool.eqb].
    rewrite Hos. rewrite !append_assoc. string_step.
    apply eventually_unary_primary; [reflexivity|].
    apply eventually_primary_parentheses.
    eapply eventually_expression.
    { apply (IHl Hl). cbn. rewrite Hod. reflexivity. }
    eapply (eventually_loop_operator _ _ _ _ _ _ _ Ho Hprio).
    { apply eventually_expression_operand. apply (IHr Hr). reflexivity. }
    apply eventually_loop_end. reflexivity.
Qed.

Lemma append_empty_r (s : string) : s ++ EmptyString = s.
Proof.
  induction s as [|ch s IH]; string_step; [reflexivity|]. f_equal. exact IH.
Qed.

Lemma to_infix_parse_fuel t :
  well_formed t = true ->
  eventually (fun fuel => parse_fuel fuel (to_infix t)) (Returns t).
Proof.
  intros Hwf.
  destruct (eventually_expression 0 (remove_spaces (to_infix t)) t EmptyString
              (Returns (t, EmptyString))) as (fuel & H).
  - rewrite <- (append_empty_r (remove_spaces (to_infix t))).
    apply (to_infix_unary t Hwf). reflexivity.
  - apply eventually_loop_end. reflexivity.
  - exists fuel. unfold parse_fuel. rewrite H. reflexivity.
Qed.

(** * The claims *)

(** ** Nesting depth *)

Lemma parse_parentheses expr t :
  parse expr = Returns t -> parse ("(" ++ expr ++ ")") = Returns t.
Proof.
  intros H. apply parse_iff in H as (fuel & H). apply parse_iff.
  exists (S (S (S fuel))). exact (parse_fuel_parentheses _ _ _ H).
Qed.

(** C1, as the code has it: the parser keeps no count of the open
    parentheses and sets no limit on their nesting.  A formula that parses
    still parses, to the same tree, inside any number [n] of pairs of
    parentheses: 10 as well as 11 or more. *)
Theorem parse_nested (n : nat) (expr : string) (t : Node) :
  parse expr = Returns t -> parse (nested n expr) = Returns t.
Proof.
  intros H. induction n as [|n IH]; [exact H|].
  cbn [nested]. apply parse_parentheses. exact IH.
Qed.

Lemma parse_nested_witness :
  parse "a+b" = Returns (BinaryOpNode "+" (var "a") (var "b")) /\
  parse (nested 10 "a+b") = Returns (BinaryOpNode "+" (var "a") (var "b")).
Proof.
  split; [reflexivity|]. apply (parse_nested 10 "a+b"). reflexivity.
Defined.

(** C1 fails: a formula with 11 levels of nested parentheses is parsed,
    no ParseError is raised. *)
Lemma parse_depth_11_returns :
  parse "(((((((((((1)))))))))))" = Returns (lit 1) /\
  parse "(((((((((((1)))))))))))" <> Raises ParseError.
Proof. split; [reflexivity|discriminate]. Qed.

(** ** simplify and evaluate *)

(** C2: when [evaluate] succeeds on a tree under an assignment of the
    variables, [simplify] returns a tree, and [evaluate] gives the same
    integer on it under the same assignment. *)
Theorem simplify_preserves_evaluate (T : Node) (vars : gmap string Z) (n : Z) :
  evaluate T vars = Returns n ->
  exists T', simplify T = Returns T' /\ evaluate T' vars = Returns n.
Proof.
  intros Hev.
  apply (simplify_fuel_evaluate (size T) T (simplify T) vars n);
    [apply simplify_fuel_size|exact Hev].
Qed.

Lemma simplify_preserves_evaluate_witness :
  evaluate (BinaryOpNode "-" (BinaryOpNode "*" (var "a") (lit 3))
                             (BinaryOpNode "*" (var "b") (lit 3)))
           vars_a5_b0 = Returns 15 /\
  exists T',
    simplify (BinaryOpNode "-" (BinaryOpNode "*" (var "a") (lit 3))
                               (BinaryOpNode "*" (var "b") (lit 3)))
    = Returns T' /\ evaluate T' vars_a5_b0 = Returns 15.
Proof.
  split; [reflexivity|].
  apply (simplify_preserves_evaluate _ vars_a5_b0 15). reflexivity.
Defined.

(** ** Failures of simplify *)

(** C3, as the code has it: [simplify] terminates on every tree whose
    operators are [+ - * /] (a recursion depth of [size t] is enough) and
    returns a node or raises ZeroDivisionError, no other exception; on a
    tree without [/] it returns a node. *)
Theorem simplify_returns_or_division_by_zero (t : Node) :
  operators_in is_binary_operator t = true ->
  simplify_fuel (size t) t = Some (simplify t) /\
  ((exists t', simplify t = Returns t') \/ simplify t = Raises ZeroDivisionError) /\
  (operators_in is_ring_operator t = true -> exists t', simplify t = Returns t').
Proof.
  intros Hok. pose proof (simplify_fuel_size t) as Hs.
  split; [exact Hs|]. split.
  - pose proof (simplify_fuel_operators_in is_binary_operator eq_refl _ _ _ Hok Hs) as H.
    destruct (simplify t) as [t'|e]; [eauto|].
    destruct H as (op & a & b & Hop & H).
    right. f_equal. exact (apply_op_binary_operator _ _ _ _ Hop H).
  - intros Hring.
    pose proof (simplify_fuel_operators_in is_ring_operator eq_refl _ _ _ Hring Hs) as H.
    destruct (simplify t) as [t'|e]; [eauto|].
    destruct H as (op & a & b & Hop & H).
    destruct (apply_op_ring_operator _ _ _ _ Hop H).
Qed.

Lemma simplify_returns_or_division_by_zero_witness :
  operators_in is_binary_operator
    (BinaryOpNode "/" (lit 6) (BinaryOpNode "+" (var "a") (lit 2))) = true /\
  ((exists t', simplify (BinaryOpNode "/" (lit 6) (BinaryOpNode "+" (var "a") (lit 2)))
               = Returns t') \/
   simplify (BinaryOpNode "/" (lit 6) (BinaryOpNode "+" (var "a") (lit 2)))
   = Raises ZeroDivisionError).
Proof.
  split; [reflexivity|].
  apply (simplify_returns_or_division_by_zero
           (BinaryOpNode "/" (lit 6) (BinaryOpNode "+" (var "a") (lit 2)))).
  reflexivity.
Defined.

(** C3 fails: [simplify] raises ZeroDivisionError on the division of the
    literal 1 by the literal 0, and returns no node. *)
Lemma simplify_literal_division_by_zero :
  simplify (BinaryOpNode "/" (lit 1) (lit 0)) = Raises ZeroDivisionError /\
  ~ exists t', simplify (BinaryOpNode "/" (lit 1) (lit 0)) = Returns t'.
Proof. split; [reflexivity|]. intros (t' & H). discriminate H. Qed.

(** ** Factoring *)

(** C4: [a*c+b*c] simplifies to [((a + b) * c)], as [(a+b)*c] does;
    [a*b-a*c] simplifies to [(a * (b - c))]; when both operands of a [+] or
    [-] node simplify to [*] nodes, equal right factors give the
    right-factor rewrite whatever the left factors are, the left-factor
    rewrite is tried only when the right factors differ, and [x*y + x*y],
    where both match, becomes [((x + x) * y)]. *)
Theorem factoring_rewrites :
  parse_simplify "a*c+b*c"
  = Returns (BinaryOpNode "*" (BinaryOpNode "+" (var "a") (var "b")) (var "c")) /\
  parse_simplify "a*c+b*c" = parse_simplify "(a+b)*c" /\
  parse_simplify "a*b-a*c"
  = Returns (BinaryOpNode "*" (var "a") (BinaryOpNode "-" (var "b") (var "c"))) /\
  parse "(a*(b-c))"
  = Returns (BinaryOpNode "*" (var "a") (BinaryOpNode "-" (var "b") (var "c"))) /\
  (forall op l r l1 l2 r1 r2,
     is_plus_or_minus op = true ->
     simplify l = Returns (BinaryOpNode "*" l1 l2) ->
     simplify r = Returns (BinaryOpNode "*" r1 r2) ->
     (node_eq l2 r2 = true ->
      simplify (BinaryOpNode op l r) =
      result_bind (simplify (BinaryOpNode op l1 r1)) (fun inner =>
      simplify (BinaryOpNode "*" inner l2))) /\
     (node_eq l2 r2 = false -> node_eq l1 r1 = true ->
      simplify (BinaryOpNode op l r) =
      result_bind (simplify (BinaryOpNode op l2 r2)) (fun inner =>
      simplify (BinaryOpNode "*" l1 inner)))) /\
  parse_simplify "x*y+x*y"
  = Returns (BinaryOpNode "*" (BinaryOpNode "+" (var "x") (var "x")) (var "y")).
Proof.
  do 4 (split; [reflexivity|]). split; [|reflexivity].
  intros op l r l1 l2 r1 r2 Hop Hl Hr. split.
  - intros H2. rewrite simplify_BinaryOpNode, Hl, Hr.
    cbn [result_bind factoring_of]. rewrite Hop, H2. reflexivity.
  - intros H2 H1. rewrite simplify_BinaryOpNode, Hl, Hr.
    cbn [result_bind factoring_of]. rewrite Hop, H2, H1. reflexivity.
Qed.

Lemma factoring_rewrites_witness :
  simplify (BinaryOpNode "+" (BinaryOpNode "*" (var "x") (var "y"))
                             (BinaryOpNode "*" (var "x") (var "y"))) =
  result_bind (simplify (BinaryOpNode "+" (var "x") (var "x"))) (fun inner =>
  simplify (BinaryOpNode "*" inner (var "y"))).
Proof.
  destruct factoring_rewrites as (_ & _ & _ & _ & H & _).
  apply (H "+" (BinaryOpNode "*" (var "x") (var "y"))
             (BinaryOpNode "*" (var "x") (var "y"))
             (var "x") (var "y") (var "x") (var "y"));
    reflexivity.
Defined.

(** ** simplify applied twice *)

(** C5: applying [simplify] to what [simplify] returned gives the same
    tree again (and when the first call raises, so does the composition). *)
Theorem simplify_idempotent (T : Node) :
  result_bind (simplify T) simplify = simplify T.
Proof.
  pose proof (simplify_fuel_size T) as H.
  destruct (simplify T) as [T'|e]; [|reflexivity].
  cbn. apply simplify_fuel_fixpoint in H as (fuel & H).
  exact (simplify_fuel_simplify _ _ _ H).
Qed.

(** ** Rendering and parsing *)

Lemma node_eq_refl t : unary_free t = true -> node_eq t t = true.
Proof.
  induction t as [[n|s]|c IH|op l IHl r IHr]; cbn; intros H.
  - apply Z.eqb_refl.
  - apply String.eqb_refl.
  - discriminate.
  - apply andb_true_iff in H as [Hl Hr].
    rewrite String.eqb_refl, (IHl Hl), (IHr Hr). reflexivity.
Qed.

(** C6, as the code has it: every binary node renders as
    [(<left> <op> <right>)], unary minus as [-(<child>)], a variable as its
    name and a literal as its decimal numeral; for every tree whose
    literals are not negative, whose variable names are one alphabetic
    character and whose operators are [+ - * /], parsing the rendering
    returns the tree; the [==] of the nodes accepts the two when the tree
    has no unary minus node. *)
Theorem parse_to_infix :
  (forall T, well_formed T = true -> parse (to_infix T) = Returns T) /\
  (forall T T', well_formed T = true -> unary_free T = true ->
     parse (to_infix T) = Returns T' -> node_eq T' T = true) /\
  (forall op l r,
     to_infix (BinaryOpNode op l r)
     = "(" ++ to_infix l ++ " " ++ op ++ " " ++ to_infix r ++ ")") /\
  (forall child, to_infix (UnaryMinusNode child) = "-(" ++ to_infix child ++ ")") /\
  (forall name, to_infix (var name) = name) /\
  (forall n, to_infix (lit n) = str_int n) /\
  to_infix (BinaryOpNode "+" (lit 120) (UnaryMinusNode (var "x"))) = "(120 + -(x))".
Proof.
  assert (Hparse : forall T, well_formed T = true -> parse (to_infix T) = Returns T).
  { intros T Hwf. apply parse_iff. exact (to_infix_parse_fuel T Hwf). }
  split; [exact Hparse|]. split; [|repeat split; reflexivity].
  intros T T' Hwf Hfree H. rewrite (Hparse T Hwf) in H. injection H as <-.
  exact (node_eq_refl T Hfree).
Qed.

Lemma parse_to_infix_witness :
  parse (to_infix (BinaryOpNode "/" (UnaryMinusNode (lit 120))
                     (BinaryOpNode "-" (var "x") (lit 0))))
  = Returns (BinaryOpNode "/" (UnaryMinusNode (lit 120))
               (BinaryOpNode "-" (var "x") (lit 0))).
Proof.
  apply (proj1 parse_to_infix
           (BinaryOpNode "/" (UnaryMinusNode (lit 120))
              (BinaryOpNode "-" (var "x") (lit 0)))).
  reflexivity.
Defined.

(** C6 fails: the literal [-5] renders as [-5], which parses to the unary
    minus of the literal [5], another tree. *)
Lemma parse_to_infix_negative_literal :
  to_infix (lit (-5)) = "-5" /\
  parse (to_infix (lit (-5))) = Returns (UnaryMinusNode (lit 5)) /\
  parse (to_infix (lit (-5))) <> Returns (lit (-5)).
Proof. split; [reflexivity|]. split; [reflexivity|discriminate]. Qed.

(** ** Division *)

(** C7: [a/b] with [a = 5] and [b = 0] raises ZeroDivisionError; so does
    the evaluation of every [/] node whose operands are evaluated and whose
    right operand gives 0; and so does [simplify] on a [/] node whose
    operands simplify to integer literals, the right one to 0. *)
Theorem division_by_zero_raises :
  parse_evaluate "a/b" vars_a5_b0 = Raises ZeroDivisionError /\
  (forall l r vars a,
     evaluate l vars = Returns a -> evaluate r vars = Returns 0 ->
     evaluate (BinaryOpNode "/" l r) vars = Raises ZeroDivisionError) /\
  (forall a, simplify (BinaryOpNode "/" (lit a) (lit 0)) = Raises ZeroDivisionError) /\
  (forall l r a,
     simplify l = Returns (lit a) -> simplify r = Returns (lit 0) ->
     simplify (BinaryOpNode "/" l r) = Raises ZeroDivisionError).
Proof.
  split; [reflexivity|]. split; [|split].
  - intros l r vars a Hl Hr. cbn. rewrite Hl, Hr. reflexivity.
  - intros a. rewrite simplify_BinaryOpNode. reflexivity.
  - intros l r a Hl Hr. rewrite simplify_BinaryOpNode, Hl, Hr. reflexivity.
Qed.

Lemma division_by_zero_raises_witness :
  evaluate (BinaryOpNode "/" (var "a") (BinaryOpNode "*" (var "b") (lit 7)))
    vars_a5_b0 = Raises ZeroDivisionError.
Proof.
  destruct division_by_zero_raises as (_ & H & _).
  apply (H (var "a") (BinaryOpNode "*" (var "b") (lit 7)) vars_a5_b0 5);
    reflexivity.
Defined.

Lemma Qfloor_quotient (a b : Z) :
  b <> 0 -> Qfloor (inject_Z a / inject_Z b) = a / b.
Proof.
  intros Hb. destruct b as [|p|p]; [congruence| |];
    unfold Qdiv, Qmult, Qinv, inject_Z, Qfloor; cbn [Qnum Qden].
  - rewrite Z.mul_1_r. reflexivity.
  - rewrite <- (Z.div_opp_opp a (Z.neg p)) by discriminate.
    f_equal. lia.
Qed.

(** C8: [5/2] evaluates to 2 and [-5/2] to -3; a [/] node whose right
    operand evaluates to a number other than 0 evaluates to the floor of the
    exact quotient of the values of its operands. *)
Theorem division_is_floor :
  parse_evaluate "5/2" ∅ = Returns 2 /\
  parse_evaluate "-5/2" ∅ = Returns (-3) /\
  (forall l r vars a b,
     evaluate l vars = Returns a -> evaluate r vars = Returns b -> b <> 0 ->
     evaluate (BinaryOpNode "/" l r) vars
     = Returns (Qfloor (inject_Z a / inject_Z b))).
Proof.
  split; [reflexivity|]. split; [reflexivity|].
  intros l r vars a b Hl Hr Hb.
  rewrite (Qfloor_quotient a b Hb), (evaluate_BinaryOpNode _ _ _ _ _ _ Hl Hr).
  unfold apply_op. cbn. destruct (Z.eqb_spec b 0) as [|_]; [contradiction|].
  reflexivity.
Qed.

Lemma division_is_floor_witness :
  evaluate (BinaryOpNode "/" (UnaryMinusNode (var "a")) (lit 2)) vars_a5_b0
  = Returns (-3).
Proof.
  destruct division_is_floor as (_ & _ & H).
  apply (H (UnaryMinusNode (var "a")) (lit 2) vars_a5_b0 (-5) 2);
    [reflexivity|reflexivity|discriminate].
Defined.

(** ** The empty formula *)

(** C9: on the empty string the parser looks for a primary at the end of
    the input and raises ParseError; no tree is returned. *)
Theorem parse_empty :
  parse "" = Raises ParseError /\
  (forall fuel, _parse_primary (S fuel) "" = Some (Raises ParseError)) /\
  (forall t, parse "" <> Returns t).
Proof.
  split; [reflexivity|]. split; [intros fuel; reflexivity|].
  intros t. discriminate.
Qed.

(** ** Literals of parsed trees *)

(** C10: every literal of a tree that [parse] returns is at least 0. *)
Theorem parse_literals_nonneg (expr : string) (t : Node) :
  parse expr = Returns t -> literals_nonneg t = true.
Proof.
  intros H. apply parse_iff in H as (fuel & H). unfold parse_fuel in H.
  destruct (_parse_expression fuel 0 (remove_spaces expr))
    as [[[tree rest]|e]|] eqn:E; [|discriminate..].
  destruct rest; [|discriminate]. injection H as <-.
  exact (proj1 (parser_nonneg fuel) _ _ _ _ E).
Qed.

Lemma parse_literals_nonneg_witness :
  parse "-5/(2 - 30)"
  = Returns (BinaryOpNode "/" (UnaryMinusNode (lit 5))
               (BinaryOpNode "-" (lit 2) (lit 30))) /\
  literals_nonneg (BinaryOpNode "/" (UnaryMinusNode (lit 5))
                     (BinaryOpNode "-" (lit 2) (lit 30))) = true.
Proof.
  split; [reflexivity|].
  apply (parse_literals_nonneg "-5/(2 - 30)"). reflexivity.
Defined.

(** * Further properties *)

(** ** evaluate and the dictionary *)

Lemma forallb_app_true {A} (f : A -> bool) (l1 l2 : list A) :
  forallb f (l1 ++ l2)%list = true <-> forallb f l1 = true /\ forallb f l2 = true.
Proof. rewrite forallb_app. apply andb_true_iff. Qed.

Lemma evaluate_agree_on t v1 v2 :
  agree_on t v1 v2 = true -> evaluate t v1 = evaluate t v2.
Proof.
  unfold agree_on.
  induction t as [[n|s]|c IH|op l IHl r IHr]; cbn [names evaluate]; intros H.
  - reflexivity.
  - cbn in H. apply andb_true_iff in H as [H _].
    apply bool_decide_eq_true in H. cbn. rewrite H. reflexivity.
  - rewrite (IH H). reflexivity.
  - apply forallb_app_true in H as [Hl Hr].
    rewrite (IHl Hl), (IHr Hr). reflexivity.
Qed.

(** X1: [evaluate] looks at the dictionary only under the variable names
    of the tree: two dictionaries that agree on them give the same result,
    value or exception. *)
Theorem evaluate_depends_on_names (t : Node) (v1 v2 : gmap string Z) :
  agree_on t v1 v2 = true -> evaluate t v1 = evaluate t v2.
Proof. exact (evaluate_agree_on t v1 v2). Qed.

Lemma evaluate_depends_on_names_witness :
  agree_on (BinaryOpNode "/" (var "a") (var "b")) vars_a5_b0
    (<["c" := 9]> vars_a5_b0) = true /\
  evaluate (BinaryOpNode "/" (var "a") (var "b")) vars_a5_b0
  = evaluate (BinaryOpNode "/" (var "a") (var "b")) (<["c" := 9]> vars_a5_b0).
Proof.
  split; [reflexivity|].
  apply (evaluate_depends_on_names (BinaryOpNode "/" (var "a") (var "b"))).
  reflexivity.
Defined.

Lemma apply_op_Returns op a b n :
  apply_op op a b = Returns n -> is_binary_operator op = true.
Proof.
  unfold apply_op, is_binary_operator.
  destruct (String.eqb op "+"); [reflexivity|].
  destruct (String.eqb op "-"); [reflexivity|].
  destruct (String.eqb op "*"); [reflexivity|].
  destruct (String.eqb op "/"); [reflexivity|discriminate].
Qed.

Lemma apply_op_classified op a b :
  is_binary_operator op = true ->
  (exists n, apply_op op a b = Returns n) \/
  apply_op op a b = Raises ZeroDivisionError.
Proof.
  intros Hop. destruct (apply_op op a b) as [n|e] eqn:E; [eauto|].
  right. f_equal. exact (apply_op_binary_operator _ _ _ _ Hop E).
Qed.

Lemma evaluate_bound t vars :
  forallb (bound vars) (names t) = true ->
  operators_in is_binary_operator t = true ->
  (exists n, evaluate t vars = Returns n) \/
  evaluate t vars = Raises ZeroDivisionError.
Proof.
  induction t as [[n|s]|c IH|op l IHl r IHr]; cbn [names evaluate operators_in];
    intros Hb Hok.
  - left. eexists. reflexivity.
  - cbn in Hb |- *. unfold bound in Hb.
    destruct (vars !! s) as [n|]; [eauto|discriminate].
  - destruct (IH Hb Hok) as [(n & ->)| ->]; eauto.
  - apply forallb_app_true in Hb as [Hbl Hbr].
    apply andb_true_iff in Hok as [Hok Hr]. apply andb_true_iff in Hok as [Hop Hl].
    destruct (IHl Hbl Hl) as [(a & ->)| ->]; [|auto].
    destruct (IHr Hbr Hr) as [(b & ->)| ->]; [|auto].
    exact (apply_op_classified op a b Hop).
Qed.

Lemma evaluate_bound_ring t vars :
  forallb (bound vars) (names t) = true ->
  operators_in is_ring_operator t = true ->
  exists n, evaluate t vars = Returns n.
Proof.
  induction t as [[n|s]|c IH|op l IHl r IHr]; cbn [names evaluate operators_in];
    intros Hb Hok.
  - eexists. reflexivity.
  - cbn in Hb |- *. unfold bound in Hb.
    destruct (vars !! s) as [n|]; [eauto|discriminate].
  - destruct (IH Hb Hok) as (n & ->). eauto.
  - apply forallb_app_true in Hb as [Hbl Hbr].
    apply andb_true_iff in Hok as [Hok Hr]. apply andb_true_iff in Hok as [Hop Hl].
    destruct (IHl Hbl Hl) as (a & ->). destruct (IHr Hbr Hr) as (b & ->).
    destruct (apply_op op a b) as [n|e] eqn:E; [eauto|].
    destruct (apply_op_ring_operator _ _ _ _ Hop E).
Qed.

(** X2: when the dictionary has every variable of the tree and the
    operators are [+ - * /], [evaluate] returns an integer or raises
    ZeroDivisionError, never ValueError; without [/] it returns an integer. *)
Theorem evaluate_with_all_variables (t : Node) (vars : gmap string Z) :
  forallb (bound vars) (names t) = true ->
  operators_in is_binary_operator t = true ->
  ((exists n, evaluate t vars = Returns n) \/
   evaluate t vars = Raises ZeroDivisionError) /\
  (operators_in is_ring_operator t = true -> exists n, evaluate t vars = Returns n).
Proof.
  intros Hb Hok. split.
  - exact (evaluate_bound t vars Hb Hok).
  - exact (evaluate_bound_ring t vars Hb).
Qed.

Lemma evaluate_with_all_variables_witness :
  (exists n, evaluate (BinaryOpNode "/" (var "a") (var "b")) vars_a5_b0 = Returns n) \/
  evaluate (BinaryOpNode "/" (var "a") (var "b")) vars_a5_b0
  = Raises ZeroDivisionError.
Proof.
  apply (evaluate_with_all_variables (BinaryOpNode "/" (var "a") (var "b"))
           vars_a5_b0); reflexivity.
Defined.

Lemma evaluate_Returns_bound t vars : forall n,
  evaluate t vars = Returns n ->
  forallb (bound vars) (names t) = true /\
  operators_in is_binary_operator t = true.
Proof.
  induction t as [[m|s]|c IH|op l IHl r IHr]; intros n H.
  - split; reflexivity.
  - cbn in H |- *. unfold bound. destruct (vars !! s); [auto|discriminate].
  - cbn in H |- *. destruct (evaluate c vars) as [m|e] eqn:E; [|discriminate].
    exact (IH _ eq_refl).
  - apply evaluate_BinaryOpNode_inv in H as (a & b & Ha & Hb & Hop).
    destruct (IHl _ Ha) as [Hl1 Hl2]. destruct (IHr _ Hb) as [Hr1 Hr2].
    cbn [names operators_in]. split.
    + apply forallb_app_true. auto.
    + rewrite (apply_op_Returns _ _ _ _ Hop), Hl2, Hr2. reflexivity.
Qed.

(** X3: [evaluate] visits every node: when it returns an integer, every
    variable of the tree is in the dictionary and every operator is one of
    [+ - * /]. *)
Theorem evaluate_returns_only_if_bound (t : Node) (vars : gmap string Z) (n : Z) :
  evaluate t vars = Returns n ->
  forallb (bound vars) (names t) = true /\
  operators_in is_binary_operator t = true.
Proof. exact (evaluate_Returns_bound t vars n). Qed.

Lemma evaluate_returns_only_if_bound_witness :
  forallb (bound vars_a5_b0)
    (names (BinaryOpNode "*" (var "a") (BinaryOpNode "-" (var "b") (lit 2)))) = true /\
  operators_in is_binary_operator
    (BinaryOpNode "*" (var "a") (BinaryOpNode "-" (var "b") (lit 2))) = true.
Proof.
  apply (evaluate_returns_only_if_bound
           (BinaryOpNode "*" (var "a") (BinaryOpNode "-" (var "b") (lit 2)))
           vars_a5_b0 (-10)).
  reflexivity.
Defined.

(** ** Equality of nodes *)

Lemma node_eq_unary_free a : forall b, node_eq a b = true -> unary_free a = true.
Proof.
  induction a as [v|c IH|op l IHl r IHr]; intros [w|d|op' l' r']; cbn;
    try discriminate; [reflexivity|].
  intros H. apply andb_true_iff in H as [H Hr]. apply andb_true_iff in H as [_ Hl].
  rewrite (IHl _ Hl), (IHr _ Hr). reflexivity.
Qed.

(** X4: the [==] of the nodes holds between two distinct objects exactly
    when they are the same tree and the tree has no unary minus node
    ([UnaryMinusNode] defines no [__eq__]). *)
Theorem node_eq_iff (a b : Node) :
  node_eq a b = true <-> a = b /\ unary_free a = true.
Proof.
  split.
  - intros H. split; [exact (node_eq_true a b H)|exact (node_eq_unary_free a b H)].
  - intros [<- H]. exact (node_eq_refl a H).
Qed.

(** ** What simplify returns *)

(** X5: [simplify] never returns a tree with more nodes than its argument. *)
Theorem simplify_size (t t' : Node) :
  simplify t = Returns t' -> (size t' <= size t)%nat.
Proof.
  intros H. destruct (simplify_fuel_enough (size t) t) as (r & Hr & Hsize); [lia|].
  apply Hsize. rewrite <- H. symmetry. exact (simplify_fuel_simplify _ _ _ Hr).
Qed.

Lemma simplify_size_witness :
  simplify (BinaryOpNode "+" (BinaryOpNode "*" (var "a") (var "c"))
                             (BinaryOpNode "*" (var "b") (var "c")))
  = Returns (BinaryOpNode "*" (BinaryOpNode "+" (var "a") (var "b")) (var "c")) /\
  (size (BinaryOpNode "*" (BinaryOpNode "+" (var "a") (var "b")) (var "c"))
   <= size (BinaryOpNode "+" (BinaryOpNode "*" (var "a") (var "c"))
                             (BinaryOpNode "*" (var "b") (var "c"))))%nat.
Proof.
  split; [reflexivity|]. apply simplify_size. reflexivity.
Defined.

Lemma UnaryMinusNode_fold_names c : names (UnaryMinusNode_fold c) = names c.
Proof. destruct c as [[n|s]|d|op l r]; reflexivity. Qed.

Lemma fold_constants_names op l r t :
  fold_constants op l r = Returns t -> names t = (names l ++ names r)%list.
Proof.
  unfold fold_constants.
  destruct l as [[a|a]|c|lop l1 l2]; try (intros [= <-]; reflexivity).
  destruct r as [[b|b]|d|rop r1 r2]; try (intros [= <-]; reflexivity).
  destruct (evaluate _ _); intros [= <-]; reflexivity.
Qed.

Lemma simplify_fuel_names fuel : forall t t',
  simplify_fuel fuel t = Some (Returns t') ->
  forall name, name ∈ names t' <-> name ∈ names t.
Proof.
  induction fuel as [|fuel IH]; intros t t' H name; [discriminate|].
  destruct t as [v|c|op l r].
  - injection H as <-. reflexivity.
  - rewrite simplify_fuel_UnaryMinusNode in H.
    apply and_then_Some in H as [(c' & Hs & [= <-])|(e & _ & [=])].
    rewrite UnaryMinusNode_fold_names. exact (IH _ _ Hs name).
  - rewrite simplify_fuel_BinaryOpNode in H.
    apply and_then_Some in H as [(left' & Hl & H)|(e & _ & [=])].
    apply and_then_Some in H as [(right' & Hr & H)|(e & _ & [=])].
    pose proof (IH _ _ Hl name) as Hl'. pose proof (IH _ _ Hr name) as Hr'.
    cbn [names]. rewrite elem_of_app, <- Hl', <- Hr'. clear Hl' Hr'.
    destruct (factoring_of op left' right') as [l1 r1 l2|l1 l2 r2|] eqn:F.
    + apply factoring_of_FactorRight in F as (r2 & -> & -> & <- & _).
      apply and_then_Some in H as [(inner & Hi & H)|(e & _ & [=])].
      rewrite (IH _ _ H name). cbn [names]. rewrite !elem_of_app.
      rewrite (IH _ _ Hi name). cbn [names]. rewrite elem_of_app. tauto.
    + apply factoring_of_FactorLeft in F as (-> & -> & _ & _).
      apply and_then_Some in H as [(inner & Hi & H)|(e & _ & [=])].
      rewrite (IH _ _ H name). cbn [names]. rewrite !elem_of_app.
      rewrite (IH _ _ Hi name). cbn [names]. rewrite elem_of_app. tauto.
    + injection H as H. rewrite (fold_constants_names _ _ _ _ H), elem_of_app.
      reflexivity.
Qed.

(** X6: the tree [simplify] returns has the variables of its argument, no
    more and no fewer. *)
Theorem simplify_names (t t' : Node) :
  simplify t = Returns t' -> forall name, name ∈ names t' <-> name ∈ names t.
Proof.
  intros H. apply (simplify_fuel_names (size t)).
  rewrite simplify_fuel_size, H. reflexivity.
Qed.

Lemma simplify_names_witness :
  "c" ∈ names (BinaryOpNode "*" (var "a") (BinaryOpNode "-" (var "b") (var "c")))
  <-> "c" ∈ names (BinaryOpNode "-" (BinaryOpNode "*" (var "a") (var "b"))
                                   (BinaryOpNode "*" (var "a") (var "c"))).
Proof.
  apply (simplify_names
           (BinaryOpNode "-" (BinaryOpNode "*" (var "a") (var "b"))
                             (BinaryOpNode "*" (var "a") (var "c")))).
  reflexivity.
Defined.

Lemma UnaryMinusNode_fold_simplified c :
  simplified c = true -> simplified (UnaryMinusNode_fold c) = true.
Proof.
  destruct c as [[n|s]|d|op l r]; cbn [UnaryMinusNode_fold]; intros H;
    try reflexivity; cbn [simplified is_literal negb andb]; exact H.
Qed.

Lemma fold_constants_simplified op l r t :
  factoring_of op l r = NoFactoring ->
  simplified l = true -> simplified r = true ->
  fold_constants op l r = Returns t -> simplified t = true.
Proof.
  intros F Hl Hr. unfold fold_constants.
  assert (Hnode : is_literal l && is_literal r = false ->
                  simplified (BinaryOpNode op l r) = true).
  { intros Hlit. cbn [simplified]. rewrite Hlit, F, Hl, Hr. reflexivity. }
  destruct l as [[a|a]|c|lop l1 l2]; try (intros [= <-]; apply Hnode; reflexivity).
  destruct r as [[b|b]|d|rop r1 r2]; try (intros [= <-]; apply Hnode; reflexivity).
  destruct (evaluate _ _); intros [= <-]; reflexivity.
Qed.

Lemma simplify_fuel_simplified fuel : forall t t',
  simplify_fuel fuel t = Some (Returns t') -> simplified t' = true.
Proof.
  induction fuel as [|fuel IH]; intros t t' H; [discriminate|].
  destruct t as [v|c|op l r].
  - injection H as <-. reflexivity.
  - rewrite simplify_fuel_UnaryMinusNode in H.
    apply and_then_Some in H as [(c' & Hs & [= <-])|(e & _ & [=])].
    apply UnaryMinusNode_fold_simplified. exact (IH _ _ Hs).
  - rewrite simplify_fuel_BinaryOpNode in H.
    apply and_then_Some in H as [(left' & Hl & H)|(e & _ & [=])].
    apply and_then_Some in H as [(right' & Hr & H)|(e & _ & [=])].
    destruct (factoring_of op left' right') as [l1 r1 l2|l1 l2 r2|] eqn:F.
    + apply and_then_Some in H as [(inner & _ & H)|(e & _ & [=])]. eauto.
    + apply and_then_Some in H as [(inner & _ & H)|(e & _ & [=])]. eauto.
    + injection H as H.
      exact (fold_constants_simplified _ _ _ _ F (IH _ _ Hl) (IH _ _ Hr) H).
Qed.

Lemma simplified_fixpoint t : simplified t = true -> simplify t = Returns t.
Proof.
  induction t as [v|c IH|op l IHl r IHr]; intros H.
  - reflexivity.
  - cbn [simplified] in H. apply andb_true_iff in H as [Hlit Hc].
    rewrite simplify_UnaryMinusNode, (IH Hc). cbn [result_bind].
    destruct c as [[n|s]|d|op l r]; try reflexivity. discriminate.
  - cbn [simplified] in H.
    apply andb_true_iff in H as [H Hr]. apply andb_true_iff in H as [H Hl].
    apply andb_true_iff in H as [Hlit F].
    rewrite simplify_BinaryOpNode, (IHl Hl), (IHr Hr). cbn [result_bind].
    destruct (factoring_of op l r); try discriminate.
    unfold fold_constants.
    destruct l as [[a|a]|c|lop l1 l2]; try reflexivity.
    destruct r as [[b|b]|d|rop r1 r2]; try reflexivity. discriminate.
Qed.

(** X7: the trees [simplify] returns are the simplified ones (no unary
    minus of a literal, no operator between two literals, no [+] or [-] of
    two products with a common factor that [==] recognises), and
    [simplify] returns each simplified tree unchanged. *)
Theorem simplify_simplified :
  (forall t t', simplify t = Returns t' -> simplified t' = true) /\
  (forall t, simplified t = true -> simplify t = Returns t).
Proof.
  split.
  - intros t t' H. apply (simplify_fuel_simplified (size t) t).
    rewrite simplify_fuel_size, H. reflexivity.
  - exact simplified_fixpoint.
Qed.

Lemma simplify_simplified_witness :
  simplify (BinaryOpNode "+" (BinaryOpNode "*" (var "a") (var "b"))
                             (BinaryOpNode "*" (var "c") (var "d")))
  = Returns (BinaryOpNode "+" (BinaryOpNode "*" (var "a") (var "b"))
                              (BinaryOpNode "*" (var "c") (var "d"))).
Proof.
  apply (proj2 simplify_simplified). reflexivity.
Defined.

Lemma simplify_closed t vars :
  names t = [] ->
  simplify t = result_bind (evaluate t vars) (fun n => Returns (lit n)).
Proof.
  induction t as [[n|s]|c IH|op l IHl r IHr]; cbn [names]; intros H.
  - reflexivity.
  - discriminate.
  - rewrite simplify_UnaryMinusNode, (IH H). cbn [evaluate].
    destruct (evaluate c vars); reflexivity.
  - apply app_eq_nil in H as [Hl Hr].
    rewrite simplify_BinaryOpNode, (IHl Hl), (IHr Hr). cbn [evaluate].
    destruct (evaluate l vars) as [a|e]; [|reflexivity].
    destruct (evaluate r vars) as [b|e]; [|reflexivity].
    cbn. destruct (apply_op op a b); reflexivity.
Qed.

(** X8: on a tree without variables [simplify] does what [evaluate] does:
    it returns the literal of the value, or raises the exception that
    [evaluate] raises. *)
Theorem simplify_without_variables (t : Node) (vars : gmap string Z) :
  names t = [] ->
  simplify t = result_bind (evaluate t vars) (fun n => Returns (lit n)).
Proof. exact (simplify_closed t vars). Qed.

Lemma simplify_without_variables_witness :
  simplify (BinaryOpNode "-" (lit 2) (BinaryOpNode "*" (lit 3) (UnaryMinusNode (lit 4))))
  = Returns (lit 14).
Proof.
  apply (simplify_without_variables
           (BinaryOpNode "-" (lit 2) (BinaryOpNode "*" (lit 3) (UnaryMinusNode (lit 4))))
           ∅).
  reflexivity.
Defined.

(** ** The trees of the parser *)

Lemma is_operator_binary_operator op :
  is_operator op = true -> is_binary_operator (String op EmptyString) = true.
Proof. each_character op. Qed.

Lemma _parse_number_well_formed st t st' :
  _parse_number st = Returns (t, st') -> well_formed t = true.
Proof.
  intros H. pose proof (_parse_number_nonneg _ _ _ H) as Hn.
  unfold _parse_number in H. destruct (scan_digits st) as [digits rest].
  destruct (int digits); [|discriminate]. injection H as <- _. exact Hn.
Qed.

Lemma parser_well_formed fuel : parser_well_formed_at fuel.
Proof.
  induction fuel as [|fuel (IHe & IHl & IHu & IHp)].
  { repeat split; intros; discriminate. }
  repeat split.
  - intros p st t st' H. rewrite _parse_expression_S in H.
    apply and_then_pair_Some in H as [(node & st1 & Hu & H)|(e & _ & [=])].
    apply IHu in Hu. exact (IHl _ _ _ _ _ Hu H).
  - intros p node st t st' Hnode H. rewrite _parse_expression_loop_S in H.
    destruct st as [|op st1]; [congruence|].
    destruct (is_operator op) eqn:Hop; cbn [andb] in H; [|congruence].
    destruct (p <=? _priority op); [|congruence].
    apply and_then_pair_Some in H as [(right_ & st2 & He & H)|(e & _ & [=])].
    apply IHe in He. apply IHl in H; [exact H|].
    cbn [well_formed].
    rewrite (is_operator_binary_operator _ Hop), Hnode, He. reflexivity.
  - intros st t st' H. rewrite _parse_unary_S in H.
    destruct st as [|ch st1]; [eauto|].
    destruct (Ascii.eqb ch "-"); [|eauto].
    apply and_then_pair_Some in H as [(child & st2 & Hu & [= <- _])|(e & _ & [=])].
    cbn. eauto.
  - intros st t st' H. rewrite _parse_primary_S in H.
    destruct st as [|ch st1]; [discriminate|].
    destruct (Ascii.eqb ch "(").
    + apply and_then_pair_Some in H as [(node & st2 & He & H)|(e & _ & [=])].
      unfold expect_closing in H. destruct st2 as [|ch2 st3]; [discriminate|].
      destruct (Ascii.eqb ch2 ")"); [|discriminate]. injection H as <- _. eauto.
    + destruct (isdigit ch).
      * injection H as H. exact (_parse_number_well_formed _ _ _ H).
      * destruct (isalpha ch) eqn:Ha; [|discriminate]. injection H as <- _.
        exact Ha.
Qed.

Lemma parse_Returns_well_formed expr t :
  parse expr = Returns t -> well_formed t = true.
Proof.
  intros H. apply parse_iff in H as (fuel & H). unfold parse_fuel in H.
  destruct (_parse_expression fuel 0 (remove_spaces expr))
    as [[[tree rest]|e]|] eqn:E; [|discriminate..].
  destruct rest; [|discriminate]. injection H as <-.
  exact (proj1 (parser_well_formed fuel) _ _ _ _ E).
Qed.

Lemma parse_to_infix_well_formed t :
  well_formed t = true -> parse (to_infix t) = Returns t.
Proof. intros H. apply parse_iff. exact (to_infix_parse_fuel t H). Qed.

(** X9: every tree that [parse] returns is a tree of the grammar: its
    operators are [+ - * /], its variable names are one alphabetic
    character, its literals are not negative. *)
Theorem parse_well_formed (expr : string) (t : Node) :
  parse expr = Returns t -> well_formed t = true.
Proof. exact (parse_Returns_well_formed expr t). Qed.

Lemma parse_well_formed_witness :
  well_formed (BinaryOpNode "*" (UnaryMinusNode (var "x"))
                 (BinaryOpNode "+" (lit 10) (var "y"))) = true.
Proof. apply (parse_well_formed "-x * (10 + y)"). reflexivity. Defined.

(** X10: rendering a parsed tree and parsing the text again returns the
    same tree. *)
Theorem parse_to_infix_parse (expr : string) (t : Node) :
  parse expr = Returns t -> parse (to_infix t) = Returns t.
Proof.
  intros H. apply parse_to_infix_well_formed.
  exact (parse_Returns_well_formed expr t H).
Qed.

Lemma parse_to_infix_parse_witness :
  parse (to_infix (BinaryOpNode "-" (BinaryOpNode "-" (var "a") (lit 2)) (var "c")))
  = Returns (BinaryOpNode "-" (BinaryOpNode "-" (var "a") (lit 2)) (var "c")).
Proof. apply (parse_to_infix_parse "a-2-c"). reflexivity. Defined.

(** X11: two trees of the grammar that render as the same text are the
    same tree. *)
Theorem to_infix_injective (t1 t2 : Node) :
  well_formed t1 = true -> well_formed t2 = true ->
  to_infix t1 = to_infix t2 -> t1 = t2.
Proof.
  intros H1 H2 H.
  pose proof (parse_to_infix_well_formed t1 H1) as P1.
  pose proof (parse_to_infix_well_formed t2 H2) as P2.
  rewrite H, P2 in P1. congruence.
Qed.

Lemma to_infix_injective_witness :
  UnaryMinusNode (var "x") = UnaryMinusNode (var "x").
Proof.
  apply (to_infix_injective (UnaryMinusNode (var "x")) (UnaryMinusNode (var "x")));
    reflexivity.
Defined.

(** ** Spaces *)

Lemma remove_spaces_idempotent expr :
  remove_spaces (remove_spaces expr) = remove_spaces expr.
Proof.
  induction expr as [|ch expr IH]; [reflexivity|]. cbn [remove_spaces].
  destruct (Ascii.eqb ch " ") eqn:E; [exact IH|].
  cbn [remove_spaces]. rewrite E, IH. reflexivity.
Qed.

Lemma parse_same_without_spaces e1 e2 :
  remove_spaces e1 = remove_spaces e2 -> parse e1 = parse e2.
Proof.
  intros H. unfold parse, parse_depth, parse_fuel. rewrite H. reflexivity.
Qed.

(** X12: spaces do not count, wherever they are: a space put anywhere
    into the text, between two digits as well, and the removal of all
    spaces leave the result of [parse] unchanged. *)
Theorem parse_ignores_spaces (e1 e2 : string) :
  parse (e1 ++ " " ++ e2) = parse (e1 ++ e2) /\
  parse (remove_spaces e1) = parse e1.
Proof.
  split; apply parse_same_without_spaces.
  - rewrite !remove_spaces_append. reflexivity.
  - apply remove_spaces_idempotent.
Qed.

(** ** Text that is no formula *)

Lemma parse_fuel_unclosed fuel expr t :
  parse_fuel fuel expr = Some (Returns t) ->
  parse_fuel (S (S (S fuel))) ("(" ++ expr) = Some (Raises ParseError).
Proof.
  unfold parse_fuel. intros H.
  destruct (_parse_expression fuel 0 (remove_spaces expr))
    as [[[tree rest]|e]|] eqn:E; [|discriminate..].
  destruct rest as [|ch rest]; [|discriminate].
  rewrite remove_spaces_append. cbn [remove_spaces Ascii.eqb Bool.eqb].
  string_step.
  rewrite _parse_expression_S, _parse_unary_S. cbn [Ascii.eqb Bool.eqb].
  rewrite _parse_primary_S. cbn [Ascii.eqb Bool.eqb].
  rewrite E. reflexivity.
Qed.

(** X13: an opening parenthesis before a formula that parses, with no
    parenthesis to close it, makes [parse] raise ParseError. *)
Theorem parse_unclosed_parenthesis (expr : string) (t : Node) :
  parse expr = Returns t -> parse ("(" ++ expr) = Raises ParseError.
Proof.
  intros H. apply parse_iff in H as (fuel & H). apply parse_iff.
  exists (S (S (S fuel))). exact (parse_fuel_unclosed _ _ _ H).
Qed.

Lemma parse_unclosed_parenthesis_witness :
  parse ("(" ++ "a+b") = Raises ParseError.
Proof.
  apply (parse_unclosed_parenthesis "a+b" (BinaryOpNode "+" (var "a") (var "b"))).
  reflexivity.
Defined.

Lemma parser_follows ch fuel :
  isdigit ch = false -> is_operator ch = false -> parser_follows_at ch fuel.
Proof.
  intros Hd Ho. induction fuel as [|fuel IH]; intros suffix.
  { repeat split; intros; discriminate. }
  destruct (IH suffix) as (IHe & IHl & IHu & IHp).
  repeat split.
  - intros p st t st' H. rewrite _parse_expression_S in *.
    apply and_then_pair_Some in H as [(node & st1 & Hu & H)|(e & _ & [=])].
    rewrite (IHu _ _ _ Hu). cbn [and_then]. eauto.
  - intros p node st t st' H. rewrite _parse_expression_loop_S in *.
    destruct st as [|op st1].
    { injection H as <- <-. string_step. rewrite Ho. reflexivity. }
    string_step.
    destruct (is_operator op && (p <=? _priority op));
      [|injection H as <- <-; reflexivity].
    apply and_then_pair_Some in H as [(right_ & st2 & He & H)|(e & _ & [=])].
    rewrite (IHe _ _ _ _ He). cbn [and_then]. eauto.
  - intros st t st' H. rewrite _parse_unary_S in *.
    destruct st as [|c st1].
    { string_step. destruct (Ascii.eqb_spec ch "-") as [->|_]; [discriminate Ho|].
      exact (IHp EmptyString _ _ H). }
    string_step.
    destruct (Ascii.eqb c "-"); [|exact (IHp _ _ _ H)].
    apply and_then_pair_Some in H as [(child & st2 & Hu & [= <- <-])|(e & _ & [=])].
    rewrite (IHu _ _ _ Hu). reflexivity.
  - intros st t st' H. rewrite _parse_primary_S in *.
    destruct st as [|c st1]; [discriminate|].
    string_step.
    destruct (Ascii.eqb c "(").
    + apply and_then_pair_Some in H as [(node & st2 & He & H)|(e & _ & [=])].
      rewrite (IHe _ _ _ _ He). cbn [and_then].
      unfold expect_closing in *. destruct st2 as [|ch2 st3]; [discriminate|].
      string_step.
      destruct (Ascii.eqb ch2 ")"); [|discriminate]. injection H as <- <-.
      reflexivity.
    + destruct (isdigit c).
      * injection H as H. f_equal. rewrite <- append_String.
        apply _parse_number_append; [exact Hd|exact H].
      * destruct (isalpha c); [|discriminate]. injection H as <- <-. reflexivity.
Qed.

Lemma parse_fuel_trailing fuel expr t ch rest :
  isdigit ch = false -> is_operator ch = false -> Ascii.eqb ch " " = false ->
  parse_fuel fuel expr = Some (Returns t) ->
  parse_fuel fuel (expr ++ String ch rest) = Some (Raises ParseError).
Proof.
  unfold parse_fuel. intros Hd Ho Hs H.
  destruct (_parse_expression fuel 0 (remove_spaces expr))
    as [[[tree st']|e]|] eqn:E; [|discriminate..].
  destruct st' as [|c st']; [|discriminate].
  rewrite remove_spaces_append. cbn [remove_spaces]. rewrite Hs.
  rewrite (proj1 (parser_follows ch fuel Hd Ho (remove_spaces rest)) _ _ _ _ E).
  reflexivity.
Qed.

(** X14: once a formula has been read, text that goes on with a character
    that is no digit, no operator and no space makes [parse] raise
    ParseError: a closing parenthesis that closes nothing, a second letter
    of a name, an opening parenthesis with no operator before it. *)
Theorem parse_trailing_text (expr : string) (t : Node) (ch : ascii) (rest : string) :
  parse expr = Returns t ->
  isdigit ch = false -> is_operator ch = false -> Ascii.eqb ch " " = false ->
  parse (expr ++ String ch rest) = Raises ParseError.
Proof.
  intros H Hd Ho Hs. apply parse_iff in H as (fuel & H). apply parse_iff.
  exists fuel. exact (parse_fuel_trailing _ _ _ _ _ Hd Ho Hs H).
Qed.

Lemma parse_trailing_text_witness :
  parse ("a" ++ String "b" "*c") = Raises ParseError.
Proof.
  apply (parse_trailing_text "a" (var "a") "b" "*c"); reflexivity.
Defined.

Lemma _parse_expression_empty fuel p :
  _parse_expression fuel p EmptyString = None \/
  _parse_expression fuel p EmptyString = Some (Raises ParseError).
Proof. destruct fuel as [|[|[|fuel]]]; [left|left|left|right]; reflexivity. Qed.

Lemma _parse_primary_empty fuel r :
  _parse_primary fuel EmptyString = Some (Returns r) -> False.
Proof. destruct fuel; discriminate. Qed.

Lemma parser_operator op fuel :
  is_operator op = true -> parser_operator_at op fuel.
Proof.
  intros Hop. destruct (is_operator_other op Hop) as (Hd & _ & _).
  induction fuel as [|fuel (IHe & IHl & IHu & IHp)].
  { repeat split; intros; discriminate. }
  unfold returns_or_ParseError in *.
  repeat split; unfold returns_or_ParseError.
  - intros p st t st' H. rewrite _parse_expression_S in *.
    apply and_then_pair_Some in H as [(node & st1 & Hu & H)|(e & _ & [=])].
    destruct (IHu _ _ _ Hu) as [E|[E|E]]; rewrite E; cbn [and_then]; auto.
  - intros p node st t st' H. rewrite _parse_expression_loop_S in *.
    destruct st as [|c st1].
    { injection H as <- <-. string_step. rewrite Hop. cbn [andb].
      destruct (p <=? _priority op); [|auto].
      destruct (_parse_expression_empty fuel (_priority op + 1)) as [E|E];
        rewrite E; cbn [and_then]; auto. }
    string_step.
    destruct (is_operator c && (p <=? _priority c));
      [|injection H as <- <-; string_step; auto].
    apply and_then_pair_Some in H as [(right_ & st2 & He & H)|(e & _ & [=])].
    destruct (IHe _ _ _ _ He) as [E|[E|E]]; rewrite E; cbn [and_then]; auto.
  - intros st t st' H. rewrite _parse_unary_S in *.
    destruct st as [|c st1]; [destruct (_parse_primary_empty _ _ H)|].
    string_step.
    destruct (Ascii.eqb c "-"); [|exact (IHp _ _ _ H)].
    apply and_then_pair_Some in H as [(child & st2 & Hu & [= <- <-])|(e & _ & [=])].
    destruct (IHu _ _ _ Hu) as [E|[E|E]]; rewrite E; cbn [and_then]; auto.
  - intros st t st' H. rewrite _parse_primary_S in *.
    destruct st as [|c st1]; [discriminate|].
    string_step.
    destruct (Ascii.eqb c "(").
    + apply and_then_pair_Some in H as [(node & st2 & He & H)|(e & _ & [=])].
      destruct (IHe _ _ _ _ He) as [E|[E|E]]; rewrite E; cbn [and_then]; auto.
      unfold expect_closing in *. destruct st2 as [|ch2 st3]; [discriminate|].
      string_step.
      destruct (Ascii.eqb ch2 ")"); [|discriminate]. injection H as <- <-. auto.
    + destruct (isdigit c).
      * injection H as H. right; left. f_equal. rewrite <- append_String.
        apply _parse_number_append; [exact Hd|exact H].
      * destruct (isalpha c); [|discriminate]. injection H as <- <-. auto.
Qed.

(** X15: an operator after a formula that parses, with no operand
    after it, makes [parse] raise ParseError. *)
Theorem parse_trailing_operator (expr : string) (t : Node) (op : ascii) :
  parse expr = Returns t -> is_operator op = true ->
  parse (expr ++ String op EmptyString) = Raises ParseError.
Proof.
  intros H Hop. destruct (is_operator_other op Hop) as (_ & Hs & _).
  apply parse_iff in H as (f & H). apply parse_iff.
  set (e2 := expr ++ String op EmptyString).
  exists (Nat.max f (parse_depth e2)).
  pose proof (parse_fuel_mono _ _ _ (parse_fuel_enough e2)
                (Nat.max f (parse_depth e2)) ltac:(lia)) as Htotal.
  apply (parse_fuel_mono _ _ _) with (fuel' := Nat.max f (parse_depth e2)) in H;
    [|lia].
  revert H Htotal. generalize (Nat.max f (parse_depth e2)). intros fuel.
  unfold parse_fuel, e2. rewrite remove_spaces_append. cbn [remove_spaces].
  rewrite Hs.
  destruct (_parse_expression fuel 0 (remove_spaces expr))
    as [[[tree st']|e]|] eqn:E; [|discriminate..].
  destruct st' as [|c st']; [|discriminate]. intros _.
  destruct (proj1 (parser_operator op fuel Hop) _ _ _ _ E) as [E2|[E2|E2]];
    rewrite E2; [discriminate|reflexivity..].
Qed.

Lemma parse_trailing_operator_witness :
  parse ("a" ++ String "+" EmptyString) = Raises ParseError.
Proof. apply (parse_trailing_operator "a" (var "a") "+"); reflexivity. Defined.

(** X16: text whose first character, spaces apart, is none of a minus
    sign, an opening parenthesis, a digit and a letter makes [parse] raise
    ParseError, whatever follows. *)
Theorem parse_bad_first_character (ch : ascii) (rest : string) :
  Ascii.eqb ch " " = false -> Ascii.eqb ch "-" = false ->
  Ascii.eqb ch "(" = false -> isdigit ch = false -> isalpha ch = false ->
  parse (String ch rest) = Raises ParseError.
Proof.
  intros Hs Hm Hp Hd Ha. apply parse_iff. exists 3%nat.
  unfold parse_fuel. cbn [remove_spaces]. rewrite Hs.
  rewrite _parse_expression_S, _parse_unary_S, Hm, _parse_primary_S, Hp, Hd, Ha.
  reflexivity.
Qed.

Lemma parse_bad_first_character_witness :
  parse (String "*" "a+b") = Raises ParseError.
Proof. apply (parse_bad_first_character "*" "a+b"); reflexivity. Defined.

(** ** Priority and associativity *)

Lemma eventually_unary_variable ch rest :
  isalpha ch = true ->
  eventually (fun fuel => _parse_unary fuel (String ch rest))
    (Returns (var (String ch EmptyString), rest)).
Proof.
  intros Ha. destruct (isalpha_other ch Ha) as (Hm & Hp & Hd & _).
  apply (eventually_unary_primary _ _ _ Hm).
  exists 1%nat. rewrite _parse_primary_S, Hp, Hd, Ha. reflexivity.
Qed.

Lemma eventually_loop_low p node op st1 :
  (p <=? _priority op) = false ->
  eventually (fun fuel => _parse_expression_loop fuel p node (String op st1))
    (Returns (node, String op st1)).
Proof.
  intros H. exists 1%nat. rewrite _parse_expression_loop_S, H, andb_false_r.
  reflexivity.
Qed.

Lemma eventually_parse expr t :
  eventually (fun fuel => _parse_expression fuel 0 (remove_spaces expr))
    (Returns (t, EmptyString)) ->
  parse expr = Returns t.
Proof.
  intros (fuel & H). apply parse_iff. exists fuel. unfold parse_fuel.
  rewrite H. reflexivity.
Qed.

(** X17: of two operators between three variables the one of higher
    priority binds first, and at equal priority the left one: [x o1 y o2 z]
    parses as [x o1 (y o2 z)] when [o2] has higher priority than [o1], and
    as [(x o1 y) o2 z] otherwise. *)
Theorem parse_priority (x y z o1 o2 : ascii) :
  isalpha x = true -> isalpha y = true -> isalpha z = true ->
  is_operator o1 = true -> is_operator o2 = true ->
  parse (String x (String o1 (String y (String o2 (String z EmptyString))))) =
  Returns
    (if _priority o1 <? _priority o2 then
       BinaryOpNode (String o1 EmptyString) (var (String x EmptyString))
         (BinaryOpNode (String o2 EmptyString) (var (String y EmptyString))
            (var (String z EmptyString)))
     else
       BinaryOpNode (String o2 EmptyString)
         (BinaryOpNode (String o1 EmptyString) (var (String x EmptyString))
            (var (String y EmptyString)))
         (var (String z EmptyString))).
Proof.
  intros Hx Hy Hz H1 H2.
  destruct (isalpha_other x Hx) as (_ & _ & _ & Hxs).
  destruct (isalpha_other y Hy) as (_ & _ & _ & Hys).
  destruct (isalpha_other z Hz) as (_ & _ & _ & Hzs).
  destruct (is_operator_other o1 H1) as (_ & H1s & H1p).
  destruct (is_operator_other o2 H2) as (_ & H2s & H2p).
  apply eventually_parse. cbn [remove_spaces].
  rewrite Hxs, H1s, Hys, H2s, Hzs.
  eapply eventually_expression; [exact (eventually_unary_variable _ _ Hx)|].
  destruct (Z.ltb_spec (_priority o1) (_priority o2)) as [Hlt|Hge].
  - eapply (eventually_loop_operator _ _ _ _ _ _ _ H1 H1p).
    + eapply eventually_expression; [exact (eventually_unary_variable _ _ Hy)|].
      eapply (eventually_loop_operator _ _ _ _ _ _ _ H2).
      * apply Z.leb_le. lia.
      * eapply eventually_expression;
          [exact (eventually_unary_variable _ _ Hz)|].
        apply eventually_loop_end. reflexivity.
      * apply eventually_loop_end. reflexivity.
    + apply eventually_loop_end. reflexivity.
  - eapply (eventually_loop_operator _ _ _ _ _ _ _ H1 H1p).
    + eapply eventually_expression; [exact (eventually_unary_variable _ _ Hy)|].
      apply eventually_loop_low. apply Z.leb_gt. lia.
    + eapply (eventually_loop_operator _ _ _ _ _ _ _ H2 H2p).
      * eapply eventually_expression;
          [exact (eventually_unary_variable _ _ Hz)|].
        apply eventually_loop_end. reflexivity.
      * apply eventually_loop_end. reflexivity.
Qed.

Lemma parse_priority_witness :
  parse "a-b*c"
  = Returns (BinaryOpNode "-" (var "a") (BinaryOpNode "*" (var "b") (var "c"))).
Proof. apply (parse_priority "a" "b" "c" "-" "*"); reflexivity. Defined.

(** X18: unary minus binds more tightly than every binary operator, on
    the left operand and on the right one: [-x o y] parses as [(-x) o y]
    and [x o -y] as [x o (-y)]. *)
Theorem parse_unary_minus_binds (x y o : ascii) :
  isalpha x = true -> isalpha y = true -> is_operator o = true ->
  parse (String "-" (String x (String o (String y EmptyString)))) =
  Returns (BinaryOpNode (String o EmptyString)
             (UnaryMinusNode (var (String x EmptyString)))
             (var (String y EmptyString))) /\
  parse (String x (String o (String "-" (String y EmptyString)))) =
  Returns (BinaryOpNode (String o EmptyString)
             (var (String x EmptyString))
             (UnaryMinusNode (var (String y EmptyString)))).
Proof.
  intros Hx Hy Ho.
  destruct (isalpha_other x Hx) as (_ & _ & _ & Hxs).
  destruct (isalpha_other y Hy) as (_ & _ & _ & Hys).
  destruct (is_operator_other o Ho) as (_ & Hos & Hop).
  split; apply eventually_parse; cbn [remove_spaces Ascii.eqb Bool.eqb];
    rewrite Hxs, Hos, Hys.
  - eapply eventually_expression.
    { apply eventually_unary_minus. exact (eventually_unary_variable _ _ Hx). }
    eapply (eventually_loop_operator _ _ _ _ _ _ _ Ho Hop).
    + eapply eventually_expression;
        [exact (eventually_unary_variable _ _ Hy)|].
      apply eventually_loop_end. reflexivity.
    + apply eventually_loop_end. reflexivity.
  - eapply eventually_expression; [exact (eventually_unary_variable _ _ Hx)|].
    eapply (eventually_loop_operator _ _ _ _ _ _ _ Ho Hop).
    + eapply eventually_expression.
      { apply eventually_unary_minus. exact (eventually_unary_variable _ _ Hy). }
      apply eventually_loop_end. reflexivity.
    + apply eventually_loop_end. reflexivity.
Qed.

Lemma parse_unary_minus_binds_witness :
  parse "a*-b"
  = Returns (BinaryOpNode "*" (var "a") (UnaryMinusNode (var "b"))).
Proof.
  apply (parse_unary_minus_binds "a" "b" "*"); reflexivity.
Defined.

(** ** The main program *)

Lemma scan_digits_char_in st ch :
  char_in ch (snd (scan_digits st)) -> char_in ch st.
Proof.
  induction st as [|c st IH]; cbn [scan_digits]; [auto|].
  destruct (isdigit c); [|auto].
  destruct (scan_digits st) as [digits rest]. cbn in *. auto.
Qed.

Lemma _parse_number_letters st t st' :
  _parse_number st = Returns (t, st') ->
  names t = [] /\ forall ch, char_in ch st' -> char_in ch st.
Proof.
  unfold _parse_number. pose proof (scan_digits_char_in st) as Hsub.
  destruct (scan_digits st) as [digits rest].
  destruct (int digits); [|discriminate]. intros [= <- <-]. auto.
Qed.

Lemma parser_letters fuel : parser_letters_at fuel.
Proof.
  induction fuel as [|fuel (IHe & IHl & IHu & IHp)].
  { repeat split; intros; discriminate. }
  unfold letters_of in *. repeat split.
  - intros name Hin. rewrite _parse_expression_S in H.
    apply and_then_pair_Some in H as [(node & st1 & Hu & H)|(e & _ & [=])].
    destruct (IHu _ _ _ Hu) as [Hn Hsub]. destruct (IHl _ _ _ _ _ H) as [Hl _].
    destruct (Hl name Hin) as [Hnode|(ch & -> & Ha & Hch)]; [auto|].
    exists ch. auto.
  - intros ch Hch. rewrite _parse_expression_S in H.
    apply and_then_pair_Some in H as [(node & st1 & Hu & H)|(e & _ & [=])].
    destruct (IHu _ _ _ Hu) as [_ Hsub]. destruct (IHl _ _ _ _ _ H) as [_ Hsub'].
    auto.
  - intros name Hin. rewrite _parse_expression_loop_S in H.
    destruct st as [|op st1]; [injection H as <- <-; auto|].
    destruct (is_operator op && (p <=? _priority op));
      [|injection H as <- <-; auto].
    apply and_then_pair_Some in H as [(right_ & st2 & He & H)|(e & _ & [=])].
    destruct (IHe _ _ _ _ He) as [Hr Hsub]. destruct (IHl _ _ _ _ _ H) as [Hl _].
    destruct (Hl name Hin) as [Hnode|(ch & -> & Ha & Hch)].
    + cbn [names] in Hnode. apply elem_of_app in Hnode as [Hnode|Hright]; [auto|].
      destruct (Hr name Hright) as (ch & -> & Ha & Hch).
      right. exists ch. cbn. auto.
    + right. exists ch. cbn. auto.
  - intros ch Hch. rewrite _parse_expression_loop_S in H.
    destruct st as [|op st1]; [injection H as <- <-; auto|].
    destruct (is_operator op && (p <=? _priority op));
      [|injection H as <- <-; auto].
    apply and_then_pair_Some in H as [(right_ & st2 & He & H)|(e & _ & [=])].
    destruct (IHe _ _ _ _ He) as [_ Hsub]. destruct (IHl _ _ _ _ _ H) as [_ Hsub'].
    cbn. auto.
  - intros name Hin. rewrite _parse_unary_S in H.
    destruct st as [|c st1]; [exact (proj1 (IHp _ _ _ H) name Hin)|].
    destruct (Ascii.eqb c "-"); [|exact (proj1 (IHp _ _ _ H) name Hin)].
    apply and_then_pair_Some in H as [(child & st2 & Hu & [= <- <-])|(e & _ & [=])].
    destruct (proj1 (IHu _ _ _ Hu) name Hin) as (ch & -> & Ha & Hch).
    exists ch. cbn. auto.
  - intros ch Hch. rewrite _parse_unary_S in H.
    destruct st as [|c st1]; [exact (proj2 (IHp _ _ _ H) ch Hch)|].
    destruct (Ascii.eqb c "-"); [|exact (proj2 (IHp _ _ _ H) ch Hch)].
    apply and_then_pair_Some in H as [(child & st2 & Hu & [= <- <-])|(e & _ & [=])].
    cbn. right. exact (proj2 (IHu _ _ _ Hu) ch Hch).
  - intros name Hin. rewrite _parse_primary_S in H.
    destruct st as [|c st1]; [discriminate|].
    destruct (Ascii.eqb c "(").
    + apply and_then_pair_Some in H as [(node & st2 & He & H)|(e & _ & [=])].
      unfold expect_closing in H. destruct st2 as [|ch2 st3]; [discriminate|].
      destruct (Ascii.eqb ch2 ")"); [|discriminate]. injection H as <- <-.
      destruct (proj1 (IHe _ _ _ _ He) name Hin) as (ch & -> & Ha & Hch).
      exists ch. cbn. auto.
    + destruct (isdigit c).
      * injection H as H. apply _parse_number_letters in H as [Hn _].
        rewrite Hn in Hin. inversion Hin.
      * destruct (isalpha c) eqn:Ha; [|discriminate]. injection H as <- <-.
        cbn in Hin. apply list_elem_of_singleton in Hin as ->.
        exists c. cbn. auto.
  - intros ch Hch. rewrite _parse_primary_S in H.
    destruct st as [|c st1]; [discriminate|].
    destruct (Ascii.eqb c "(").
    + apply and_then_pair_Some in H as [(node & st2 & He & H)|(e & _ & [=])].
      unfold expect_closing in H. destruct st2 as [|ch2 st3]; [discriminate|].
      destruct (Ascii.eqb ch2 ")"); [|discriminate]. injection H as <- <-.
      cbn. right. apply (proj2 (IHe _ _ _ _ He)). cbn. auto.
    + destruct (isdigit c).
      * injection H as H. apply _parse_number_letters in H as [_ Hsub]. auto.
      * destruct (isalpha c); [|discriminate]. injection H as <- <-.
        cbn. auto.
Qed.

Lemma char_in_remove_spaces ch expr :
  char_in ch (remove_spaces expr) -> char_in ch expr.
Proof.
  induction expr as [|c expr IH]; cbn [remove_spaces]; [auto|].
  destruct (Ascii.eqb c " "); cbn; tauto.
Qed.

Lemma read_variables_lookup answer ch expr :
  isalpha ch = true -> char_in ch expr ->
  read_variables answer expr !! String ch EmptyString
  = Some (answer (String ch EmptyString)).
Proof.
  intros Ha. induction expr as [|c expr IH]; cbn [char_in read_variables];
    [tauto|].
  intros Hin. destruct (Ascii.eqb_spec c ch) as [->|Hne].
  - rewrite Ha. apply lookup_insert_eq.
  - destruct Hin as [Heq|Hin]; [contradiction|].
    destruct (isalpha c); [|exact (IH Hin)].
    rewrite lookup_insert_ne by congruence. exact (IH Hin).
Qed.

Lemma parse_names_bound answer expr tree :
  parse expr = Returns tree ->
  forall name, name ∈ names tree -> bound (read_variables answer expr) name = true.
Proof.
  intros H name Hin. apply parse_iff in H as (fuel & H). unfold parse_fuel in H.
  destruct (_parse_expression fuel 0 (remove_spaces expr))
    as [[[t rest]|e]|] eqn:E; [|discriminate..].
  destruct rest; [|discriminate]. injection H as ->.
  destruct (proj1 (proj1 (parser_letters fuel) _ _ _ _ E) name Hin)
    as (ch & -> & Ha & Hch).
  apply char_in_remove_spaces in Hch.
  unfold bound. rewrite (read_variables_lookup answer ch expr Ha Hch).
  reflexivity.
Qed.

Lemma well_formed_operators t :
  well_formed t = true -> operators_in is_binary_operator t = true.
Proof.
  induction t as [v|c IH|op l IHl r IHr]; cbn; intros H.
  - reflexivity.
  - exact (IH H).
  - apply andb_true_iff in H as [H Hr]. apply andb_true_iff in H as [Hop Hl].
    rewrite Hop, (IHl Hl), (IHr Hr). reflexivity.
Qed.

Lemma forallb_bound vars (l : list string) :
  (forall name, name ∈ l -> bound vars name = true) ->
  forallb (bound vars) l = true.
Proof.
  intros H. apply forallb_forall. intros name Hin. apply H.
  apply list_elem_of_In. exact Hin.
Qed.

Lemma main_result_classified answer expr tree :
  parse expr = Returns tree ->
  (exists n, main_result answer expr = Returns n) \/
  main_result answer expr = Raises ZeroDivisionError.
Proof.
  intros H. unfold main_result. rewrite H. cbn [result_bind].
  pose proof (well_formed_operators _ (parse_Returns_well_formed _ _ H)) as Hok.
  pose proof (simplify_fuel_size tree) as Hs.
  pose proof (simplify_fuel_operators_in is_binary_operator eq_refl _ _ _ Hok Hs)
    as Hres.
  destruct (simplify tree) as [t'|e]; cbn [result_bind].
  - apply evaluate_bound; [|exact Hres].
    apply forallb_bound. intros name Hin.
    apply (parse_names_bound answer expr tree H).
    apply (simplify_fuel_names _ _ _ Hs). exact Hin.
  - destruct Hres as (op & a & b & Hop & Hraise).
    right. f_equal. exact (apply_op_binary_operator _ _ _ _ Hop Hraise).
Qed.

(** X19: the main program has asked for every variable it evaluates: once
    the text has parsed, simplifying the tree and evaluating it with the
    values read for the letters of the text gives an integer or raises
    ZeroDivisionError, never the ValueError of an undefined variable. *)
Theorem main_no_undefined_variable (answer : string -> Z) (expr : string) (tree : Node) :
  parse expr = Returns tree ->
  (exists n, main_result answer expr = Returns n) \/
  main_result answer expr = Raises ZeroDivisionError.
Proof. exact (main_result_classified answer expr tree). Qed.

Lemma main_no_undefined_variable_witness :
  (exists n, main_result (fun _ => 3) "a*c + b*c" = Returns n) \/
  main_result (fun _ => 3) "a*c + b*c" = Raises ZeroDivisionError.
Proof.
  apply (main_no_undefined_variable (fun _ => 3) "a*c + b*c"
           (BinaryOpNode "+" (BinaryOpNode "*" (var "a") (var "c"))
                             (BinaryOpNode "*" (var "b") (var "c")))).
  reflexivity.
Defined.

(** X20: when the formula as typed has a value under the values read,
    the main program prints that value: simplification in between does not
    change it. *)
Theorem main_prints_value (answer : string -> Z) (expr : string) (tree : Node) (n : Z) :
  parse expr = Returns tree ->
  evaluate tree (read_variables answer expr) = Returns n ->
  main_result answer expr = Returns n.
Proof.
  intros H Hev. unfold main_result. rewrite H. cbn [result_bind].
  destruct (simplify_fuel_evaluate _ _ _ _ _ (simplify_fuel_size tree) Hev)
    as (t' & -> & Hev').
  exact Hev'.
Qed.

Lemma main_prints_value_witness :
  main_result (fun name => if String.eqb name "a" then 7 else 2) "a*c - b*c"
  = Returns 10.
Proof.
  apply (main_prints_value _ "a*c - b*c"
           (BinaryOpNode "-" (BinaryOpNode "*" (var "a") (var "c"))
                             (BinaryOpNode "*" (var "b") (var "c"))));
    reflexivity.
Defined.

(** ** Operators of a simplified tree *)

(** X21: [simplify] brings in no operator but [*]: for every set of
    operators with [*] in it, a tree over the set simplifies to a tree over
    the set. *)
Theorem simplify_operators (ok : string -> bool) (t t' : Node) :
  ok "*" = true -> operators_in ok t = true ->
  simplify t = Returns t' -> operators_in ok t' = true.
Proof.
  intros Hmul Hok H.
  pose proof (simplify_fuel_operators_in ok Hmul _ _ _ Hok (simplify_fuel_size t))
    as Hres.
  rewrite H in Hres. exact Hres.
Qed.

Lemma simplify_operators_witness :
  operators_in is_ring_operator
    (BinaryOpNode "*" (BinaryOpNode "+" (var "a") (var "b")) (var "c")) = true.
Proof.
  apply (simplify_operators is_ring_operator
           (BinaryOpNode "+" (BinaryOpNode "*" (var "a") (var "c"))
                             (BinaryOpNode "*" (var "b") (var "c"))));
    reflexivity.
Defined.
